(** * Hashline tools: line references by content fingerprint

    A shallow embedding of the hashline extension (the [read_hashline] and
    [edit_hashline] tools with their helpers [generateLineHash],
    [parseLineHash] and [resolveLineHash]) and the properties its
    specification states about it.

    Conventions of the embedding.
    - A line of text is a [string]: the bytes of its UTF-8 encoding, which is
      what the digest is fed with. The content of a file is the text the
      decoder gives for it; for a file of well-formed UTF-8 these are its
      bytes, and what is said about the bytes of a file after a write is
      said for such files.
    - The line numbers of references and of the buffer are whole and are
      modelled as [Z]. Reading a run of digits is exact in the model; the
      source reads it into a double, which is exact up to 2^53, and what
      is said about the value of a number read from digits is said up to
      that bound.
    - The parameters of the read tool are finite numbers that need not be
      whole: they are modelled as [Q], the rationals they denote, with
      exact arithmetic. The source computes on doubles, whose sums and
      differences are exact on whole numbers up to 2^53; what depends on
      the exact value of a result is said for such numbers.
    - [Map<number, string>] is a [gmap Z string], [Set<number>] a [gset Z],
      [string[]] a [list string].
    - A thrown [Error] is a value of [Error]; functions that can throw
      return a [result]. *)

From Stdlib Require Import QArith Qround Lqa ZArith List Ascii String Lia Bool.
From stdpp Require Import base tactics option list list_numbers gmap sets strings pretty.

Local Open Scope Z_scope.

(** ** The digest behind the fingerprint

    [createHash("md5").update(content).digest("hex")] of node:crypto, written
    out after RFC 1321 on 32-bit words held in [Z]. *)

Module MD5.

Definition two32 : Z := 2 ^ 32.

Definition add32 (x y : Z) : Z := (x + y) mod two32.

Definition not32 (x : Z) : Z := Z.lxor x (two32 - 1).

Definition rotl32 (x : Z) (c : Z) : Z :=
  Z.lor (Z.shiftl x c mod two32) (Z.shiftr x (32 - c)).

(** Per-round shift amounts. *)
Definition S : list Z :=
  [ 7; 12; 17; 22; 7; 12; 17; 22; 7; 12; 17; 22; 7; 12; 17; 22;
    5; 9; 14; 20; 5; 9; 14; 20; 5; 9; 14; 20; 5; 9; 14; 20;
    4; 11; 16; 23; 4; 11; 16; 23; 4; 11; 16; 23; 4; 11; 16; 23;
    6; 10; 15; 21; 6; 10; 15; 21; 6; 10; 15; 21; 6; 10; 15; 21 ].

(** [K i] is the integer part of [2^32 * abs (sin (i + 1))]. *)
Definition K : list Z :=
  [ 0xd76aa478; 0xe8c7b756; 0x242070db; 0xc1bdceee;
    0xf57c0faf; 0x4787c62a; 0xa8304613; 0xfd469501;
    0x698098d8; 0x8b44f7af; 0xffff5bb1; 0x895cd7be;
    0x6b901122; 0xfd987193; 0xa679438e; 0x49b40821;
    0xf61e2562; 0xc040b340; 0x265e5a51; 0xe9b6c7aa;
    0xd62f105d; 0x02441453; 0xd8a1e681; 0xe7d3fbc8;
    0x21e1cde6; 0xc33707d6; 0xf4d50d87; 0x455a14ed;
    0xa9e3e905; 0xfcefa3f8; 0x676f02d9; 0x8d2a4c8a;
    0xfffa3942; 0x8771f681; 0x6d9d6122; 0xfde5380c;
    0xa4beea44; 0x4bdecfa9; 0xf6bb4b60; 0xbebfbc70;
    0x289b7ec6; 0xeaa127fa; 0xd4ef3085; 0x04881d05;
    0xd9d4d039; 0xe6db99e5; 0x1fa27cf8; 0xc4ac5665;
    0xf4292244; 0x432aff97; 0xab9423a7; 0xfc93a039;
    0x655b59c3; 0x8f0ccc92; 0xffeff47d; 0x85845dd1;
    0x6fa87e4f; 0xfe2ce6e0; 0xa3014314; 0x4e0811a1;
    0xf7537e82; 0xbd3af235; 0x2ad7d2bb; 0xeb86d391 ].

(** The [n] low bytes of [x], least significant first. *)
Fixpoint le_bytes (n : nat) (x : Z) : list Z :=
  match n with
  | O => []
  | Datatypes.S n' => x mod 256 :: le_bytes n' (x / 256)
  end.

(** Message padding: a 1 bit, zeros up to 56 mod 64, the bit length on
    64 bits. *)
Definition pad (msg : list Z) : list Z :=
  let len := Z.of_nat (length msg) in
  msg ++ [0x80] ++ repeat 0 (Z.to_nat ((55 - len) mod 64))
      ++ le_bytes 8 ((8 * len) mod 2 ^ 64).

(** The [g]-th little-endian word of a 64-byte block. *)
Definition word (block : list Z) (g : nat) : Z :=
  nth (4 * g) block 0 + nth (4 * g + 1) block 0 * 2 ^ 8
  + nth (4 * g + 2) block 0 * 2 ^ 16 + nth (4 * g + 3) block 0 * 2 ^ 24.

Definition state : Type := Z * Z * Z * Z.

Definition round (block : list Z) (st : state) (i : nat) : state :=
  let '(a, b, c, d) := st in
  let '(f, g) :=
    if (i <? 16)%nat then
      (Z.lor (Z.land b c) (Z.land (not32 b) d), i)
    else if (i <? 32)%nat then
      (Z.lor (Z.land d b) (Z.land (not32 d) c), ((5 * i + 1) mod 16)%nat)
    else if (i <? 48)%nat then
      (Z.lxor (Z.lxor b c) d, ((3 * i + 5) mod 16)%nat)
    else
      (Z.lxor c (Z.lor b (not32 d)), ((7 * i) mod 16)%nat) in
  let f' := add32 (add32 (add32 f a) (nth i K 0)) (word block g) in
  (d, add32 b (rotl32 f' (nth i S 0)), b, c).

Definition compress (st : state) (block : list Z) : state :=
  let '(a0, b0, c0, d0) := st in
  let '(a, b, c, d) := fold_left (round block) (seq 0 64) st in
  (add32 a0 a, add32 b0 b, add32 c0 c, add32 d0 d).

Fixpoint blocks (n : nat) (bytes : list Z) : list (list Z) :=
  match n with
  | O => []
  | Datatypes.S n' => firstn 64 bytes :: blocks n' (skipn 64 bytes)
  end.

Definition init : state := (0x67452301, 0xefcdab89, 0x98badcfe, 0x10325476).

(** The 16 bytes of the digest. *)
Definition digest (msg : list Z) : list Z :=
  let padded := pad msg in
  let '(a, b, c, d) :=
    fold_left compress (blocks (length padded / 64) padded) init in
  le_bytes 4 a ++ le_bytes 4 b ++ le_bytes 4 c ++ le_bytes 4 d.

Definition hexDigits : list ascii :=
  list_ascii_of_string "0123456789abcdef".

Definition hexDigit (n : Z) : ascii := nth (Z.to_nat n) hexDigits "0"%char.

Definition hexByte (b : Z) : list ascii := [hexDigit (b / 16); hexDigit (b mod 16)].

Definition bytes_of_string (s : string) : list Z :=
  map (fun c => Z.of_N (N_of_ascii c)) (list_ascii_of_string s).

(** [createHash("md5").update(s).digest("hex")]. *)
Definition md5_hex (s : string) : string :=
  string_of_list_ascii (flat_map hexByte (digest (bytes_of_string s))).

End MD5.

(** Generate a hash for a line content (6 hex chars, content-only). *)
Definition generateLineHash (content : string) (_lineNumber : Z) : string :=
  let hash := MD5.md5_hex content in
  String.substring 0 6 hash.

(** ** Errors and results *)

(** The [Error]s the two tools throw, one constructor per kind of failure;
    the fields are values the message names. [HashMismatch] stands for the
    message of both range operations, which name the line in the same words
    and differ in the sentence after it. *)
Inductive Error : Type :=
  | OperationAborted
  | NoSuchFile (path : string)
  | FileTooLarge (size : Z)
  | FileAppearsBinary (ext : string)
  | OffsetBeyondEndOfFile (offset : Q) (total : Z)
  | InvalidLineHashFormat
  | AmbiguousNearby (lineNumber : Z) (hash : string) (candidates : list Z)
  | AmbiguousGlobal (lineNumber : Z) (hash : string) (candidates : list Z)
  | HashNotFound (lineNumber : Z) (hash : string)
  | LineOutOfRange (len : Z)
  | StartOutOfRange
  | EndOutOfRangeOrBeforeStart
  | HashMismatch (line : Z).

Inductive result (A : Type) : Type :=
  | Ok (a : A)
  | Throw (e : Error).
Arguments Ok {A} a.
Arguments Throw {A} e.

#[global] Instance result_ret : MRet result := fun A a => Ok a.
#[global] Instance result_bind : MBind result := fun A B f m =>
  match m with
  | Ok a => f a
  | Throw e => Throw e
  end.

Definition succeeded {A} (r : result A) : bool :=
  match r with Ok _ => true | Throw _ => false end.

(** ** Line references *)

Record LineRef : Type := mkRef { lineNumber : Z; hash : string }.

Definition code (c : ascii) : Z := Z.of_N (N_of_ascii c).

(** [\d] *)
Definition isDigit (c : ascii) : bool := (48 <=? code c) && (code c <=? 57).

(** [[a-f0-9]] under the [i] flag. *)
Definition isHexIgnoreCase (c : ascii) : bool :=
  isDigit c
  || ((97 <=? code c) && (code c <=? 102))
  || ((65 <=? code c) && (code c <=? 70)).

(** The longest prefix of digits, and what follows it. *)
Fixpoint spanDigits (s : string) : list ascii * string :=
  match s with
  | String c s' =>
      if isDigit c then let '(ds, rest) := spanDigits s' in (c :: ds, rest)
      else ([], s)
  | EmptyString => ([], s)
  end.

(** The value up to which every whole number is a double, so that the
    numbers of the source and the numbers of the model are the same. *)
Definition MAX_EXACT : Z := 2 ^ 53.

(** [parseInt(digits, 10)] on a string of decimal digits: their value. The
    source holds it in a double, so that the two agree up to [MAX_EXACT]. *)
Definition parseInt (digits : list ascii) : Z :=
  fold_left (fun acc c => 10 * acc + (code c - 48)) digits 0.

(** Parse a line hash reference like "2:a3b4c5": the match of
    [/^(\d+):([a-f0-9]{6})$/i]. A run of digits can only be followed by the
    colon at its end, so the greedy run is the only candidate for group 1. *)
Definition parseLineHash (ref : string) : option LineRef :=
  match spanDigits ref with
  | (d :: ds, String ":" rest) =>
      if (String.length rest =? 6)%nat
         && forallb isHexIgnoreCase (list_ascii_of_string rest)
      then Some {| lineNumber := parseInt (d :: ds); hash := rest |}
      else None
  | _ => None
  end.

(** ** The resolver *)

(** The loop [for (i = first; i <= last; i++) if (hashIndex.get(i) === hash)
    candidates.push(i)], with [fuel] iterations left. *)
Fixpoint collect (hashIndex : gmap Z string) (hash : string)
    (fuel : nat) (i : Z) (candidates : list Z) : list Z :=
  match fuel with
  | O => candidates
  | S fuel' =>
      collect hashIndex hash fuel' (i + 1)
        (if decide (hashIndex !! i = Some hash) then candidates ++ [i]
         else candidates)
  end.

Definition candidatesBetween (hashIndex : gmap Z string) (hash : string)
    (first last : Z) : list Z :=
  collect hashIndex hash (Z.to_nat (last - first + 1)) first [].

Definition nearbyRange : Z := 10.

(** Resolve a line hash reference, with fallback for stale line numbers:
    exact match, then nearby search, then global search. *)
Definition resolveLineHash (ref : LineRef) (lines : list string)
    (hashIndex : gmap Z string) (modifiedLines : gset Z) : result Z :=
  let lineNumber := ref.(lineNumber) in
  let hash := ref.(hash) in
  if decide (hashIndex !! lineNumber = Some hash) then Ok lineNumber
  else if decide (lineNumber ∈ modifiedLines) then Ok lineNumber
  else
    let nearbyStart := Z.max 1 (lineNumber - nearbyRange) in
    let nearbyEnd := Z.min (Z.of_nat (length lines)) (lineNumber + nearbyRange) in
    let nearbyCandidates := candidatesBetween hashIndex hash nearbyStart nearbyEnd in
    match nearbyCandidates with
    | [c] => Ok c
    | _ :: _ :: _ => Throw (AmbiguousNearby lineNumber hash nearbyCandidates)
    | [] =>
        let globalCandidates :=
          candidatesBetween hashIndex hash 1 (Z.of_nat (length lines)) in
        match globalCandidates with
        | [c] => Ok c
        | _ :: _ :: _ => Throw (AmbiguousGlobal lineNumber hash globalCandidates)
        | [] => Throw (HashNotFound lineNumber hash)
        end
    end.

(** ** The edit engine *)

(** The variants of the [edits] array. *)
Inductive Edit : Type :=
  | replace_line (lineHash : string) (newText : string)
  | replace_range (startHash endHash : string) (newLines : list string)
  | insert_after (lineHash : string) (newLines : list string)
  | delete_line (lineHash : string)
  | delete_range (startHash endHash : string).

(** The variables the loop over the edits works on. [minAffectedLine] and
    [maxAffectedLine] start at plus and minus infinity, here [None]. *)
Record EditState : Type := mkState {
  lines : list string;
  hashIndex : gmap Z string;
  modifiedLines : gset Z;
  minAffectedLine : option Z;
  maxAffectedLine : option Z
}.

(** [for (let i = 0; i < lines.length; i++) hashIndex.set(i + 1,
    generateLineHash(lines[i], i + 1))], on the lines from index [i] on.
    The map is written over, not emptied first. *)
Fixpoint setHashes (i : Z) (rest : list string) (hashIndex : gmap Z string)
    : gmap Z string :=
  match rest with
  | [] => hashIndex
  | line :: rest' =>
      setHashes (i + 1) rest' (<[i + 1 := generateLineHash line (i + 1)]> hashIndex)
  end.

Definition rebuildIndex (lines : list string) (hashIndex : gmap Z string)
    : gmap Z string :=
  setHashes 0 lines hashIndex.

(** [Math.min(minAffectedLine, x)] and [Math.max(maxAffectedLine, x)]. *)
Definition minWith (m : option Z) (x : Z) : option Z :=
  Some (match m with None => x | Some y => Z.min y x end).

Definition maxWith (m : option Z) (x : Z) : option Z :=
  Some (match m with None => x | Some y => Z.max y x end).

Definition parseOrThrow (token : string) : result LineRef :=
  match parseLineHash token with
  | Some ref => Ok ref
  | None => Throw InvalidLineHashFormat
  end.

(** The "Verify hashes" loop of the two range operations, with [fuel]
    iterations left from line [i]. The loop runs after the bounds checks,
    so [lines[i - 1]] is always a line of the buffer; the default stands
    for the index out of range that cannot happen there. *)
Fixpoint verifyFrom (lines : list string) (hashIndex : gmap Z string)
    (modifiedLines : gset Z) (fuel : nat) (i : Z) : result unit :=
  match fuel with
  | O => Ok tt
  | S fuel' =>
      if decide (i ∈ modifiedLines) then
        verifyFrom lines hashIndex modifiedLines fuel' (i + 1)
      else
        let actualHash :=
          generateLineHash (default EmptyString (lines !! Z.to_nat (i - 1))) i in
        if decide (Some actualHash = hashIndex !! i) then
          verifyFrom lines hashIndex modifiedLines fuel' (i + 1)
        else Throw (HashMismatch i)
  end.

Definition verifyRange (st : EditState) (first last : Z) : result unit :=
  verifyFrom st.(lines) st.(hashIndex) st.(modifiedLines)
    (Z.to_nat (last - first + 1)) first.

(** Resolution and the range check shared by the three single-reference
    operations. *)
Definition resolveInRange (st : EditState) (ref : LineRef) : result Z :=
  lineNumber ← resolveLineHash ref st.(lines) st.(hashIndex) st.(modifiedLines);
  if (lineNumber <? 1) || (Z.of_nat (length st.(lines)) <? lineNumber)
  then Throw (LineOutOfRange (Z.of_nat (length st.(lines))))
  else Ok lineNumber.

(** Resolution, bounds check and hash verification shared by the two range
    operations. *)
Definition resolveRange (st : EditState) (startRef endRef : LineRef)
    : result (Z * Z) :=
  resolvedStart ← resolveLineHash startRef st.(lines) st.(hashIndex) st.(modifiedLines);
  resolvedEnd ← resolveLineHash endRef st.(lines) st.(hashIndex) st.(modifiedLines);
  if (resolvedStart <? 1) || (Z.of_nat (length st.(lines)) <? resolvedStart)
  then Throw StartOutOfRange
  else if (resolvedEnd <? resolvedStart) || (Z.of_nat (length st.(lines)) <? resolvedEnd)
  then Throw EndOutOfRangeOrBeforeStart
  else
    _ ← verifyRange st resolvedStart resolvedEnd;
    Ok (resolvedStart, resolvedEnd).

(** The state after an operation that changed the line count: new buffer,
    index written over for every line of it, modified set cleared. *)
Definition restructured (st : EditState) (newLines : list string)
    (lo hi : Z) : EditState :=
  {| lines := newLines;
     hashIndex := rebuildIndex newLines st.(hashIndex);
     modifiedLines := ∅;
     minAffectedLine := minWith st.(minAffectedLine) lo;
     maxAffectedLine := maxWith st.(maxAffectedLine) hi |}.

(** One iteration of the loop over [edits]: the [switch (edit.type)]. *)
Definition applyEdit (edit : Edit) (st : EditState) : result EditState :=
  match edit with
  | replace_line lineHash newText =>
      ref ← parseOrThrow lineHash;
      lineNumber ← resolveInRange st ref;
      Ok {| lines := <[Z.to_nat (lineNumber - 1) := newText]> st.(lines);
            hashIndex :=
              <[lineNumber := generateLineHash newText lineNumber]> st.(hashIndex);
            modifiedLines := {[lineNumber]} ∪ st.(modifiedLines);
            minAffectedLine := minWith st.(minAffectedLine) lineNumber;
            maxAffectedLine := maxWith st.(maxAffectedLine) lineNumber |}
  | replace_range startHash endHash newLines =>
      match parseLineHash startHash, parseLineHash endHash with
      | Some startRef, Some endRef =>
          '(resolvedStart, resolvedEnd) ← resolveRange st startRef endRef;
          let before := take (Z.to_nat (resolvedStart - 1)) st.(lines) in
          let after := drop (Z.to_nat resolvedEnd) st.(lines) in
          Ok (restructured st (before ++ newLines ++ after)
                resolvedStart (resolvedStart + Z.of_nat (length newLines)))
      | _, _ => Throw InvalidLineHashFormat
      end
  | insert_after lineHash newLines =>
      ref ← parseOrThrow lineHash;
      lineNumber ← resolveInRange st ref;
      let before := take (Z.to_nat lineNumber) st.(lines) in
      let after := drop (Z.to_nat lineNumber) st.(lines) in
      Ok (restructured st (before ++ newLines ++ after)
            (lineNumber + 1) (lineNumber + Z.of_nat (length newLines)))
  | delete_line lineHash =>
      ref ← parseOrThrow lineHash;
      lineNumber ← resolveInRange st ref;
      Ok (restructured st
            (take (Z.to_nat (lineNumber - 1)) st.(lines)
               ++ drop (Z.to_nat (lineNumber - 1) + 1) st.(lines))
            lineNumber (lineNumber + 5))
  | delete_range startHash endHash =>
      match parseLineHash startHash, parseLineHash endHash with
      | Some startRef, Some endRef =>
          '(resolvedStart, resolvedEnd) ← resolveRange st startRef endRef;
          Ok (restructured st
                (take (Z.to_nat (resolvedStart - 1)) st.(lines)
                   ++ drop (Z.to_nat (resolvedStart - 1)
                            + Z.to_nat (resolvedEnd - resolvedStart + 1)) st.(lines))
                resolvedStart (resolvedStart + 5))
      | _, _ => Throw InvalidLineHashFormat
      end
  end.

(** The loop over [edits]; [aborted] is [signal?.aborted], which cannot
    change while the synchronous loop runs. *)
Fixpoint applyEdits (aborted : bool) (edits : list Edit) (st : EditState)
    : result EditState :=
  match edits with
  | [] => Ok st
  | edit :: edits' =>
      if aborted then Throw OperationAborted
      else st' ← applyEdit edit st; applyEdits aborted edits' st'
  end.

(** ** The host and the file system *)

(** The result of the host's [truncateHead], with the fields the read tool
    uses. *)
Record TruncationResult : Type := mkTruncation {
  content : string;
  truncated : bool;
  totalLines : Z;
  outputLines : Z;
  totalBytes : Z;
  outputBytes : Z
}.

(** What the extension takes from outside this repository: path handling of
    node:path ([resolvePath] stands for the choice between the path and its
    join with the working directory), and [truncateHead] (at the default
    limits) and [formatSize] of the host package, and how JavaScript
    prints a number that is not whole. *)
Class Host : Type := {
  extname : string → string;
  resolvePath : string → string;
  truncateHead : string → TruncationResult;
  formatSize : Z → string;
  fractionToString : Q → string
}.

(** Computations that read and write files (a map from absolute paths to
    contents) and may throw; a throw keeps the file system as it is at that
    point. *)
Definition IO (A : Type) : Type :=
  gmap string string → result A * gmap string string.

#[global] Instance IO_ret : MRet IO := fun A a fs => (Ok a, fs).
#[global] Instance IO_bind : MBind IO := fun A B f m fs =>
  match m fs with
  | (Ok a, fs') => f a fs'
  | (Throw e, fs') => (Throw e, fs')
  end.

Definition throw {A} (e : Error) : IO A := fun fs => (Throw e, fs).

Definition liftResult {A} (r : result A) : IO A := fun fs => (r, fs).

(** [stat(path).size], in bytes. *)
Definition statSize (path : string) : IO Z := fun fs =>
  match fs !! path with
  | Some data => (Ok (Z.of_nat (String.length data)), fs)
  | None => (Throw (NoSuchFile path), fs)
  end.

(** [readFile(path, "utf-8")]: the text of the file. *)
Definition readFile (path : string) : IO string := fun fs =>
  match fs !! path with
  | Some data => (Ok data, fs)
  | None => (Throw (NoSuchFile path), fs)
  end.

(** [writeFile(path, data, "utf-8")]. *)
Definition writeFile (path : string) (data : string) : IO unit := fun fs =>
  (Ok tt, <[path := data]> fs).

Definition MAX_FILE_SIZE : Z := 50 * 1024 * 1024.

Definition BINARY_EXTENSIONS : list string :=
  [ ".jpg"; ".jpeg"; ".png"; ".gif"; ".bmp"; ".ico"; ".svg"; ".webp";
    ".pdf"; ".zip"; ".tar"; ".gz"; ".rar"; ".7z";
    ".exe"; ".dll"; ".so"; ".dylib"; ".bin";
    ".mp3"; ".mp4"; ".wav"; ".ogg"; ".flac"; ".avi"; ".mov";
    ".doc"; ".docx"; ".xls"; ".xlsx"; ".ppt"; ".pptx" ].

Definition lowerChar (c : ascii) : ascii :=
  if (65 <=? code c) && (code c <=? 90)
  then ascii_of_N (N_of_ascii c + 32) else c.

Fixpoint toLowerCase (s : string) : string :=
  match s with
  | EmptyString => EmptyString
  | String c s' => String (lowerChar c) (toLowerCase s')
  end.

(** Check if a file is likely binary based on extension. *)
Definition isLikelyBinary `{Host} (filePath : string) : bool :=
  let ext := toLowerCase (extname filePath) in
  bool_decide (ext ∈ BINARY_EXTENSIONS).

(** Validate file is safe to read (size and binary check). *)
Definition validateFileForReading `{Host} (filePath : string) : IO unit :=
  size ← statSize filePath;
  if MAX_FILE_SIZE <? size then throw (FileTooLarge size)
  else if isLikelyBinary filePath then throw (FileAppearsBinary (extname filePath))
  else mret tt.

Definition newline : ascii := "010"%char.

(** The first line of [s] and the lines after it. *)
Fixpoint splitFirst (s : string) : string * list string :=
  match s with
  | EmptyString => (EmptyString, [])
  | String c s' =>
      let '(line, rest) := splitFirst s' in
      if decide (c = newline) then (EmptyString, line :: rest)
      else (String c line, rest)
  end.

(** [s.split("\n")]: never empty. *)
Definition split (s : string) : list string :=
  let '(line, rest) := splitFirst s in line :: rest.

(** [ls.join("\n")]. *)
Fixpoint join (ls : list string) : string :=
  match ls with
  | [] => EmptyString
  | [line] => line
  | line :: ls' => line +:+ String newline (join ls')
  end.

(** ** The edit tool *)

(** [signal?.aborted] at the two places the edit tool reads it: on entry,
    and in the loop, after the file was read. *)
Record Signal : Type := mkSignal {
  abortedAtEntry : bool;
  abortedInLoop : bool
}.

Inductive ResponseMode : Type := minimal | normal | debug.

Record EditDetails : Type := mkEditDetails {
  editsApplied : nat;
  affectedRegion : option (list string)
}.

(** The state the loop starts from: the index of the file as read, nothing
    modified, no affected line. *)
Definition initialState (buffer : string) : EditState :=
  let lines := split buffer in
  {| lines := lines;
     hashIndex := rebuildIndex lines ∅;
     modifiedLines := ∅;
     minAffectedLine := None;
     maxAffectedLine := None |}.

(** One line of the affected region, for the 0-based index [i]. *)
Definition regionLine (lines : list string) (minAffected maxAffected : Z)
    (i : Z) : string :=
  let lineNumber := i + 1 in
  let line := default EmptyString (lines !! Z.to_nat i) in
  let hash := generateLineHash line lineNumber in
  let isChanged := (minAffected - 1 <=? i) && (i <? maxAffected) in
  if isChanged
  then "*" +:+ pretty lineNumber +:+ ":" +:+ hash +:+ "|" +:+ line
  else " " +:+ pretty lineNumber +:+ "|" +:+ line.

Definition affectedRegionOf (st : EditState) (responseMode : ResponseMode)
    : option (list string) :=
  match st.(minAffectedLine), st.(maxAffectedLine) with
  | Some minAffected, Some maxAffected =>
      let contextLines :=
        match responseMode with minimal => 0 | normal => 1 | debug => 3 end in
      let regionStart := Z.max 0 (minAffected - 1 - contextLines) in
      let regionEnd :=
        Z.min (Z.of_nat (length st.(lines))) (maxAffected + contextLines) in
      Some (regionLine st.(lines) minAffected maxAffected
              <$> seqZ regionStart (regionEnd - regionStart))
  | _, _ => None
  end.

(** [execute] of the [edit_hashline] tool. *)
Definition edit_hashline `{Host} (signal : Signal) (path : string)
    (edits : list Edit) (responseMode : ResponseMode) : IO EditDetails :=
  let absolutePath := resolvePath path in
  _ ← (if signal.(abortedAtEntry) then throw OperationAborted else mret tt);
  _ ← validateFileForReading absolutePath;
  buffer ← readFile absolutePath;
  st ← liftResult (applyEdits signal.(abortedInLoop) edits (initialState buffer));
  _ ← writeFile absolutePath (join st.(lines));
  mret {| editsApplied := length edits;
          affectedRegion := affectedRegionOf st responseMode |}.

(** ** The read tool *)

(** The parameters as the schema has them: four optional numbers, none of
    which is required to be whole, and [execute] rounds none of them. *)
Record ReadParams : Type := mkReadParams {
  offset : option Q;
  limit : option Q;
  aroundLine : option Q;
  radius : option Q
}.

Record ReadDetails : Type := mkReadDetails {
  text : string;
  totalLinesInFile : Z;
  linesRead : Z
}.

(** [Math.max] and [Math.min] of two numbers. *)
Definition mathMax (a b : Q) : Q := if Qle_bool a b then b else a.

Definition mathMin (a b : Q) : Q := if Qle_bool a b then a else b.

(** How [slice] reads an index that is a number: its fraction is dropped,
    towards zero. *)
Definition toIntegerOrInfinity (x : Q) : Z :=
  if Qle_bool 0 x then Qfloor x else Qceiling x.

Definition isWhole (x : Q) : bool := Qeq_bool (inject_Z (Qfloor x)) x.

(** A number inside a template string. A whole number shows as its decimal
    digits (the numbers printed here stay far below 10^21, where JavaScript
    changes to exponent notation); for a number that is not whole the
    printing is the host's. *)
Definition numberToString `{Host} (x : Q) : string :=
  if isWhole x then pretty (Qfloor x) else fractionToString x.

(** [l.slice(start, end)] of JavaScript on integers: a negative index counts
    from the end, and both are clamped to the length. *)
Definition slice {A} (l : list A) (first last : Z) : list A :=
  let len := Z.of_nat (length l) in
  let relative k := if k <? 0 then Z.max (len + k) 0 else Z.min k len in
  take (Z.to_nat (relative last - relative first)) (drop (Z.to_nat (relative first)) l).

(** The window [startLine, endLine) the read tool computes; the two bounds
    are numbers, whole only when the parameters are. *)
Definition readWindow (total : Z) (params : ReadParams) : result (Q * Q) :=
  match params.(aroundLine) with
  | Some aroundLine =>
      let radius := default 10%Q params.(radius) in
      let centerLine := (aroundLine - 1)%Q in
      Ok (mathMax 0 (centerLine - radius),
          mathMin (inject_Z total) (centerLine + radius + 1))
  | None =>
      let startLine :=
        match params.(offset) with
        | Some offset => if Qeq_bool offset 0 then 0%Q else mathMax 0 (offset - 1)
        | None => 0%Q
        end in
      if Qle_bool (inject_Z total) startLine
      then Throw (OffsetBeyondEndOfFile (default 0%Q params.(offset)) total)
      else
        Ok (startLine,
            match params.(limit) with
            | Some limit => mathMin (startLine + limit) (inject_Z total)
            | None => inject_Z total
            end)
  end.

(** The selected lines with their hashline prefixes. The hash is given the
    line number, of which it makes no use. *)
Definition hashlineLines `{Host} (startLine : Q) (selectedLines : list string)
    : list string :=
  imap (fun idx line =>
          let lineNumber := (startLine + inject_Z (Z.of_nat idx) + 1)%Q in
          let hash := generateLineHash line (toIntegerOrInfinity lineNumber) in
          numberToString lineNumber +:+ ":" +:+ hash +:+ "|" +:+ line)
       selectedLines.

Definition blankLine : string := String newline (String newline EmptyString).

(** The text after truncation, with the notice the tool appends. *)
Definition outputTextOf `{Host} (params : ReadParams) (total : Z)
    (startLine endLine : Q) (truncation : TruncationResult) : string :=
  if truncation.(truncated) then
    let truncatedLines := truncation.(totalLines) - truncation.(outputLines) in
    let truncatedBytes := truncation.(totalBytes) - truncation.(outputBytes) in
    truncation.(content) +:+ blankLine
      +:+ "[Output truncated: showing " +:+ pretty truncation.(outputLines)
      +:+ " of " +:+ pretty truncation.(totalLines) +:+ " lines"
      +:+ " (" +:+ formatSize truncation.(outputBytes) +:+ " of "
      +:+ formatSize truncation.(totalBytes) +:+ ")."
      +:+ " " +:+ pretty truncatedLines +:+ " lines ("
      +:+ formatSize truncatedBytes +:+ ") omitted."
      +:+ match params.(aroundLine) with
          | Some _ => " Use a larger radius to see more lines.]"
          | None =>
              " Use offset="
                +:+ numberToString
                      (startLine + inject_Z truncation.(outputLines) + 1)
                +:+ " to continue.]"
          end
  else
    match params.(aroundLine), params.(limit) with
    | None, Some _ =>
        if negb (Qle_bool (inject_Z total) endLine) then
          truncation.(content) +:+ blankLine
            +:+ "[" +:+ numberToString (inject_Z total - endLine)
            +:+ " more lines in file. Use offset=" +:+ numberToString (endLine + 1)
            +:+ " to continue.]"
        else truncation.(content)
    | _, _ => truncation.(content)
    end.

(** [execute] of the [read_hashline] tool. *)
Definition read_hashline `{Host} (aborted : bool) (path : string)
    (params : ReadParams) : IO ReadDetails :=
  let absolutePath := resolvePath path in
  _ ← (if aborted then throw OperationAborted else mret tt);
  _ ← validateFileForReading absolutePath;
  buffer ← readFile absolutePath;
  let allLines := split buffer in
  let total := Z.of_nat (length allLines) in
  '(startLine, endLine) ← liftResult (readWindow total params);
  let selectedLines :=
    slice allLines (toIntegerOrInfinity startLine) (toIntegerOrInfinity endLine) in
  let selectedContent := join (hashlineLines startLine selectedLines) in
  let truncation := truncateHead selectedContent in
  mret {| text := outputTextOf params total startLine endLine truncation;
          totalLinesInFile := total;
          linesRead := truncation.(outputLines) |}.

(** ** Vocabulary of the specification *)

(** A lowercase hexadecimal digit, and a string of six of them. *)
Definition isLowerHex (c : ascii) : bool :=
  isDigit c || ((97 <=? code c) && (code c <=? 102)).

Definition isFingerprint (s : string) : bool :=
  (String.length s =? 6)%nat && forallb isLowerHex (list_ascii_of_string s).

(** An uppercase hexadecimal letter. *)
Definition isUpperHex (c : ascii) : bool := (65 <=? code c) && (code c <=? 70).

(** The line numbers between [first] and [last] whose indexed fingerprint
    is [hash], in increasing order: what a search of that range is
    specified to find. *)
Definition matchesIn (hashIndex : gmap Z string) (hash : string)
    (first last : Z) : list Z :=
  filter (λ i, hashIndex !! i = Some hash) (seqZ first (last - first + 1)).

(** The index has, for every line of the buffer, the fingerprint of that
    line under its 1-indexed number. *)
Definition indexCovers (lines : list string) (hashIndex : gmap Z string) : Prop :=
  ∀ (i : nat) (line : string),
    lines !! i = Some line →
    hashIndex !! (Z.of_nat i + 1) = Some (generateLineHash line (Z.of_nat i + 1)).

(** Every entry of the index, whatever its key, is a fingerprint. *)
Definition indexOfFingerprints (hashIndex : gmap Z string) : Prop :=
  ∀ (i : Z) (h : string), hashIndex !! i = Some h → isFingerprint h = true.

(** Line [k] was not written by this call and the index does not have the
    fingerprint of its current text. *)
Definition staleLine (lines : list string) (hashIndex : gmap Z string)
    (modifiedLines : gset Z) (k : Z) : Prop :=
  (k ∉ modifiedLines)
  ∧ hashIndex !! k
    ≠ Some (generateLineHash (default EmptyString (lines !! Z.to_nat (k - 1))) k).

(** [fingerprint(lineText)] of the specification: the hash of a line, which
    no line number enters. *)
Definition fingerprint (line : string) : string := generateLineHash line 0.

(** ** A host to run examples with

    Paths are taken as they are, every file has the extension [.txt],
    nothing is truncated, sizes are printed as numbers, and a number that
    is not whole as its decimal expansion, cut after twenty places. *)
Definition passThrough (s : string) : TruncationResult :=
  {| content := s; truncated := false;
     totalLines := Z.of_nat (length (split s));
     outputLines := Z.of_nat (length (split s));
     totalBytes := Z.of_nat (String.length s);
     outputBytes := Z.of_nat (String.length s) |}.

Fixpoint decimalPlaces (places : nat) (remainder denominator : Z) : string :=
  match places with
  | O => EmptyString
  | S places' =>
      if remainder =? 0 then EmptyString
      else
        pretty (10 * remainder / denominator)
          +:+ decimalPlaces places' (10 * remainder mod denominator) denominator
  end.

Definition decimalExpansion (x : Q) : string :=
  let numerator := Z.abs (Qnum x) in
  let denominator := Z.pos (Qden x) in
  (if Qnum x <? 0 then "-" else "")
    +:+ pretty (numerator / denominator) +:+ "."
    +:+ decimalPlaces 20 (numerator mod denominator) denominator.

Definition exampleHost : Host :=
  {| extname := λ _, ".txt";
     resolvePath := λ path, path;
     truncateHead := passThrough;
     formatSize := pretty;
     fractionToString := decimalExpansion |}.

(** The file with the given lines. *)
Definition fileOf (ls : list string) : string := join ls.

(** ** Buffers and states to run examples on *)

(** The reference token the read tool shows for [line] at [lineNumber]. *)
Definition tokenOf (lineNumber : Z) (line : string) : string :=
  pretty lineNumber +:+ ":" +:+ generateLineHash line lineNumber.

(** The state an edit call starts from on the given lines, with the given
    modified set. *)
Definition stateOf (ls : list string) (modified : gset Z) : EditState :=
  {| lines := ls;
     hashIndex := rebuildIndex ls ∅;
     modifiedLines := modified;
     minAffectedLine := None;
     maxAffectedLine := None |}.

Definition threeLines : list string := ["a"; "b"; "c"].

Definition repeatedLines : list string := ["x"; "same"; "same"; "y"].

(** A state whose index was taken from other contents than its buffer. *)
Definition outdatedState : EditState :=
  {| lines := ["a"; "b"; "c"];
     hashIndex := rebuildIndex ["a"; "earlier"; "c"] ∅;
     modifiedLines := ∅;
     minAffectedLine := None;
     maxAffectedLine := None |}.

Definition eightLines : list string :=
  ["l1"; "l2"; "l3"; "l4"; "l5"; "l6"; "l7"; "l8"].

Definition nineLines : list string :=
  ["l1"; "l2"; "l3"; "l4"; "l5"; "l6"; "l7"; "l8"; "l9"].

(** Nine different lines; the last two have the same fingerprint. *)
Definition collidingLines : list string :=
  ["l1"; "l2"; "l3"; "l4"; "l5"; "l6"; "l7"; "line 1049"; "line 1250"].

Definition windowPastEnd : ReadParams :=
  {| offset := None; limit := None; aroundLine := Some 50%Q; radius := None |}.

Definition offsetPastEnd : ReadParams :=
  {| offset := Some 3%Q; limit := None; aroundLine := None; radius := None |}.

(** An offset between the last line and the one after it. *)
Definition offsetBetweenLines : ReadParams :=
  {| offset := Some (5 # 2); limit := None; aroundLine := None; radius := None |}.

Definition notAborted : Signal :=
  {| abortedAtEntry := false; abortedInLoop := false |}.

(** The state after the given edits on the given file, when they all go
    through (the starting state otherwise). *)
Definition afterEdits (buffer : string) (edits : list Edit) : EditState :=
  match applyEdits false edits (initialState buffer) with
  | Ok st => st
  | Throw _ => initialState buffer
  end.

Definition notes : gmap string string :=
  {[ "notes.txt" := fileOf threeLines ]}.

Definition shortNotes : gmap string string :=
  {[ "notes.txt" := fileOf ["first"; "second"] ]}.

(** ** Proof steps for the examples *)

(** Closed facts about the example data are settled by evaluation. *)
Ltac evaluate :=
  vm_compute;
  first [ reflexivity | exact I | lia
        | let Heq := fresh "Heq" in intros Heq; discriminate Heq ].

(** A conjunction of such facts, one conjunct at a time. *)
Ltac evaluate_each :=
  repeat match goal with |- _ ∧ _ => split end; evaluate.

(** A proposition with a decision procedure, settled by running it. *)
Ltac decide_by_evaluation :=
  match goal with
  | |- ?P => apply (@bool_decide_unpack P _); vm_compute; exact I
  end.

(** * More of the repository *)

(** A line of text has no line break in it. *)
Definition hasNewline (s : string) : bool :=
  existsb (λ c, bool_decide (c = newline)) (list_ascii_of_string s).

(** ** Well-formed files *)

(** A byte that continues a character of several bytes. *)
Definition isContinuation (b : Z) : bool := (128 <=? b) && (b <=? 191).

(** The bytes are well-formed UTF-8 (RFC 3629): no stray continuation byte,
    no cut-off or overlong sequence, no surrogate, nothing above U+10FFFF.
    This is when decoding a file and encoding the text again gives the
    bytes of the file. *)
Fixpoint wellFormed (bytes : list Z) : bool :=
  match bytes with
  | [] => true
  | b0 :: rest0 =>
      if b0 <=? 127 then wellFormed rest0
      else
        match rest0 with
        | [] => false
        | b1 :: rest1 =>
            if (194 <=? b0) && (b0 <=? 223)
            then isContinuation b1 && wellFormed rest1
            else
              match rest1 with
              | [] => false
              | b2 :: rest2 =>
                  if (224 <=? b0) && (b0 <=? 239)
                  then
                    (if b0 =? 224 then (160 <=? b1) && (b1 <=? 191)
                     else if b0 =? 237 then (128 <=? b1) && (b1 <=? 159)
                     else isContinuation b1)
                    && isContinuation b2 && wellFormed rest2
                  else
                    match rest2 with
                    | [] => false
                    | b3 :: rest3 =>
                        (240 <=? b0) && (b0 <=? 244)
                        && (if b0 =? 240 then (144 <=? b1) && (b1 <=? 191)
                            else if b0 =? 244 then (128 <=? b1) && (b1 <=? 143)
                            else isContinuation b1)
                        && isContinuation b2 && isContinuation b3
                        && wellFormed rest3
                    end
              end
        end
  end.

Definition validUtf8 (data : string) : bool :=
  wellFormed (code <$> list_ascii_of_string data).

(** ** Reads with whole parameters *)

(** The parameters of a read whose numbers are all whole. *)
Definition wholeParams (o l a r : option Z) : ReadParams :=
  {| offset := inject_Z <$> o;
     limit := inject_Z <$> l;
     aroundLine := inject_Z <$> a;
     radius := inject_Z <$> r |}.

(** The number, when given, is at most [MAX_EXACT] in absolute value. *)
Definition withinExact (x : option Z) : bool :=
  from_option (λ z, Z.abs z <=? MAX_EXACT) true x.

(** ** The updater: comparing versions *)

(** The groups of [v.match(/^(\d+)\.(\d+)\.(\d+)/)] read as numbers, when
    the version starts with three dot-separated runs of digits. *)
Definition versionParts (v : string) : option (list Z) :=
  match spanDigits v with
  | (d1 :: ds1, String "." rest1) =>
      match spanDigits rest1 with
      | (d2 :: ds2, String "." rest2) =>
          match spanDigits rest2 with
          | (d3 :: ds3, _) =>
              Some [parseInt (d1 :: ds1); parseInt (d2 :: ds2); parseInt (d3 :: ds3)]
          | _ => None
          end
      | _ => None
      end
  | _ => None
  end.

(** [parseVersion] inside [isNewer]. *)
Definition parseVersion (v : string) : list Z :=
  default [0; 0; 0] (versionParts v).

(** The loop over the three parts. *)
Fixpoint newerParts (currentParts latestParts : list Z) : bool :=
  match currentParts, latestParts with
  | c :: currentParts', l :: latestParts' =>
      if c <? l then true
      else if l <? c then false
      else newerParts currentParts' latestParts'
  | _, _ => false
  end.

(** The version starts with three numbers, none above [MAX_EXACT]. *)
Definition readsExactly (v : string) : bool :=
  match versionParts v with
  | Some parts => forallb (λ part, part <=? MAX_EXACT) parts
  | None => false
  end.

(** Compare two semver versions: true if latest > current. *)
Definition isNewer (current latest : string) : bool :=
  if bool_decide (current = "unknown") || negb (bool_decide (is_Some (versionParts current)))
  then true
  else if negb (bool_decide (is_Some (versionParts latest)))
  then false
  else newerParts (parseVersion current) (parseVersion latest).

(** ** The message copier: previews *)

(** [truncate] of the message copier, on a string given as its sequence of
    code units; [dot] is the code unit of the full stop. *)
Definition truncate {A} (dot : A) (str : list A) (maxLen : Z) : list A :=
  if Z.of_nat (length str) <=? maxLen then str
  else slice str 0 (maxLen - 3) ++ [dot; dot; dot].

(** * Properties *)

(** ** Test vectors *)

Example md5_empty : MD5.md5_hex "" = "d41d8cd98f00b204e9800998ecf8427e".
Proof. vm_compute. reflexivity. Qed.

Example md5_abc : MD5.md5_hex "abc" = "900150983cd24fb0d6963f7d28e17f72".
Proof. vm_compute. reflexivity. Qed.

Example md5_message_digest :
  MD5.md5_hex "message digest" = "f96b697d7cb7938d525a2f31aaf161d0".
Proof. vm_compute. reflexivity. Qed.

(** A message of 70 bytes takes two blocks. *)
Example md5_two_blocks :
  MD5.md5_hex "aaaaaaaaaaaaaaaaaaaaaaaaaaaaaaaaaaaaaaaaaaaaaaaaaaaaaaaaaaaaaaaaaaaaaa"
  = "0f5c6c4e740bfcc08c3c26ccb2673d46".
Proof. vm_compute. reflexivity. Qed.

Example generateLineHash_hello : generateLineHash "hello" 3 = "5d4140".
Proof. vm_compute. reflexivity. Qed.

Example parse_lower : parseLineHash "12:a1b2c3" = Some (mkRef 12 "a1b2c3").
Proof. reflexivity. Qed.

Example parse_upper : parseLineHash "12:A1B2C3" = Some (mkRef 12 "A1B2C3").
Proof. reflexivity. Qed.

Example parse_short : parseLineHash "12:a1b2c" = None.
Proof. reflexivity. Qed.

Example parse_trailing : parseLineHash "12:a1b2c3 " = None.
Proof. reflexivity. Qed.

Example parse_no_number : parseLineHash ":a1b2c3" = None.
Proof. reflexivity. Qed.

(** ** The fingerprint *)

Lemma substring_prefix (n : nat) (l : list ascii) :
  String.substring 0 n (string_of_list_ascii l) = string_of_list_ascii (take n l).
Proof.
  revert l. induction n as [|n IH]; intros [|c l]; simpl; try reflexivity.
  by rewrite IH.
Qed.

Lemma length_string_of_list_ascii (l : list ascii) :
  String.length (string_of_list_ascii l) = length l.
Proof. induction l as [|c l IH]; simpl; [done | by rewrite IH]. Qed.

Lemma length_le_bytes (n : nat) (x : Z) : length (MD5.le_bytes n x) = n.
Proof. revert x. induction n as [|n IH]; intros x; simpl; [done | by rewrite IH]. Qed.

(** The digest has 16 bytes whatever the message. *)
Lemma length_digest (msg : list Z) : length (MD5.digest msg) = 16%nat.
Proof.
  unfold MD5.digest.
  destruct (fold_left MD5.compress _ MD5.init) as [[[a b] c] d].
  by rewrite !length_app, !length_le_bytes.
Qed.

Lemma hexDigit_lower (n : Z) : isLowerHex (MD5.hexDigit n) = true.
Proof.
  unfold MD5.hexDigit.
  destruct (nth_in_or_default (Z.to_nat n) MD5.hexDigits "0"%char) as [Hin | ->];
    [| reflexivity].
  revert Hin. generalize (nth (Z.to_nat n) MD5.hexDigits "0"%char). intros c.
  simpl. intros Hin. repeat (destruct Hin as [<- | Hin]; [reflexivity |]).
  destruct Hin.
Qed.

Lemma hex_of_bytes (bytes : list Z) :
  length (flat_map MD5.hexByte bytes) = (2 * length bytes)%nat
  ∧ forallb isLowerHex (flat_map MD5.hexByte bytes) = true.
Proof.
  induction bytes as [|b bytes [IHlen IHhex]]; [done |].
  split.
  - simpl. rewrite IHlen. lia.
  - simpl. by rewrite !hexDigit_lower, IHhex.
Qed.

Lemma forallb_take {A} (f : A → bool) (n : nat) (l : list A) :
  forallb f l = true → forallb f (take n l) = true.
Proof.
  revert l. induction n as [|n IH]; intros [|x l]; simpl; try done.
  intros [Hx Hl]%andb_prop. by rewrite Hx, IH.
Qed.

Lemma generateLineHash_fingerprint (s : string) (n : Z) :
  isFingerprint (generateLineHash s n) = true.
Proof.
  unfold isFingerprint, generateLineHash, MD5.md5_hex.
  rewrite substring_prefix, length_string_of_list_ascii.
  rewrite list_ascii_of_string_of_list_ascii.
  destruct (hex_of_bytes (MD5.digest (MD5.bytes_of_string s))) as [Hlen Hhex].
  rewrite length_digest in Hlen.
  rewrite length_take, Hlen. simpl Nat.min.
  by rewrite forallb_take.
Qed.

(** C6. The fingerprint of a line is a string of six lowercase hexadecimal
    digits, and it is the same whatever line number it is computed at: it
    depends on the text alone, so equal texts at different positions have
    equal fingerprints. *)
Theorem generateLineHash_content_only (s : string) (n m : Z) :
  isFingerprint (generateLineHash s n) = true
  ∧ generateLineHash s n = generateLineHash s m.
Proof. split; [apply generateLineHash_fingerprint | reflexivity]. Qed.

(** ** The resolver *)

Section Resolver.

Context (hashIndex : gmap Z string) (hash : string).

(** The candidate loop appends, in order, the matching numbers of the
    [fuel] line numbers from [i] on. *)
Lemma collect_filter (fuel : nat) (i : Z) (candidates : list Z) :
  collect hashIndex hash fuel i candidates
  = candidates
    ++ filter (λ j, hashIndex !! j = Some hash) (seqZ i (Z.of_nat fuel)).
Proof.
  revert i candidates. induction fuel as [|fuel IH]; intros i candidates.
  - simpl. by rewrite seqZ_nil, app_nil_r by lia.
  - cbn [collect]. rewrite IH, (seqZ_cons i) by lia.
    replace (Z.pred (Z.of_nat (S fuel))) with (Z.of_nat fuel) by lia.
    replace (Z.succ i) with (i + 1) by lia.
    rewrite filter_cons. destruct (decide (hashIndex !! i = Some hash)).
    + by rewrite <- app_assoc.
    + done.
Qed.

(** The loop finds what a search of the range is specified to find. *)
Lemma candidatesBetween_matchesIn (first last : Z) :
  candidatesBetween hashIndex hash first last = matchesIn hashIndex hash first last.
Proof.
  unfold candidatesBetween, matchesIn. rewrite collect_filter. simpl.
  destruct (decide (0 ≤ last - first + 1)).
  - by rewrite Z2Nat.id.
  - by rewrite !seqZ_nil by lia.
Qed.

Lemma elem_of_matchesIn (first last i : Z) :
  i ∈ matchesIn hashIndex hash first last
  ↔ first ≤ i ≤ last ∧ hashIndex !! i = Some hash.
Proof.
  unfold matchesIn. rewrite list_elem_of_filter, elem_of_seqZ. intuition lia.
Qed.

Lemma NoDup_matchesIn (first last : Z) :
  NoDup (matchesIn hashIndex hash first last).
Proof. apply NoDup_filter, NoDup_seqZ. Qed.

(** A narrower range finds no more than a wider one. *)
Lemma matchesIn_narrow (first last first' last' i : Z) :
  first' ≤ first → last ≤ last' →
  i ∈ matchesIn hashIndex hash first last →
  i ∈ matchesIn hashIndex hash first' last'.
Proof. rewrite !elem_of_matchesIn. intuition lia. Qed.

End Resolver.

(** A duplicate-free list all of whose elements are one value has at most
    that one element. *)
Lemma NoDup_all_equal {A} (l : list A) (c : A) :
  NoDup l → (∀ x, x ∈ l → x = c) → l = [] ∨ l = [c].
Proof.
  intros Hnd Hall. destruct l as [|x [|y l]]; [by left | |].
  - right. f_equal. apply Hall. by left.
  - exfalso. assert (x = c) as -> by (apply Hall; by left).
    assert (y = c) as -> by (apply Hall; right; by left).
    apply NoDup_cons in Hnd as [Hnotin _]. apply Hnotin. by left.
Qed.

(** C1. Resolution goes through its tiers in order and returns the first
    decisive result: the stated line number when the index has the hash
    there; otherwise the stated line number when this call modified it;
    otherwise the only match within ten lines, clamped to the buffer;
    otherwise the only match in the whole buffer; and a not-found error
    when the whole buffer has no match. *)
Theorem resolveLineHash_tiers (n : Z) (h : string) (lines : list string)
    (hashIndex : gmap Z string) (modifiedLines : gset Z) :
  let len := Z.of_nat (length lines) in
  let nearby := matchesIn hashIndex h (Z.max 1 (n - 10)) (Z.min len (n + 10)) in
  let global := matchesIn hashIndex h 1 len in
  let resolved := resolveLineHash (mkRef n h) lines hashIndex modifiedLines in
  (hashIndex !! n = Some h → resolved = Ok n)
  ∧ (hashIndex !! n ≠ Some h → n ∈ modifiedLines → resolved = Ok n)
  ∧ (hashIndex !! n ≠ Some h → n ∉ modifiedLines →
     ∀ c, nearby = [c] → resolved = Ok c)
  ∧ (hashIndex !! n ≠ Some h → n ∉ modifiedLines → length nearby ≠ 1%nat →
     ∀ c, global = [c] → resolved = Ok c)
  ∧ (hashIndex !! n ≠ Some h → n ∉ modifiedLines → length nearby ≠ 1%nat →
     global = [] → resolved = Throw (HashNotFound n h)).
Proof.
  intros len nearby global resolved.
  subst resolved. unfold resolveLineHash. cbn [lineNumber hash]. fold len.
  rewrite !candidatesBetween_matchesIn. unfold nearbyRange. fold nearby global.
  repeat split.
  - intros Hexact. by rewrite decide_True.
  - intros Hexact Hmod. by rewrite decide_False, decide_True.
  - intros Hexact Hmod c Hnear. by rewrite !decide_False, Hnear.
  - intros Hexact Hmod Hlen c Hglobal. rewrite !decide_False by done.
    assert (nearby = [] ∨ nearby = [c]) as [-> | Hone].
    { apply NoDup_all_equal; [apply NoDup_matchesIn |].
      intros x Hx. apply (matchesIn_narrow _ _ _ _ 1 len) in Hx; [| lia | lia].
      fold global in Hx. rewrite Hglobal in Hx. by apply list_elem_of_singleton in Hx. }
    + by rewrite Hglobal.
    + by rewrite Hone in Hlen.
  - intros Hexact Hmod Hlen Hglobal. rewrite !decide_False by done.
    assert (nearby = []) as ->.
    { destruct nearby as [|x l] eqn:Hnear; [done |]. exfalso.
      assert (x ∈ global) as Hx.
      { apply (matchesIn_narrow _ _ (Z.max 1 (n - 10)) (Z.min len (n + 10)));
          [lia | lia |]. fold nearby. rewrite Hnear. by left. }
      rewrite Hglobal in Hx. by apply not_elem_of_nil in Hx. }
    by rewrite Hglobal.
Qed.

(** C3. When resolution gets to a search and the searched range has more
    than one line whose indexed fingerprint is the hash, it fails with an
    ambiguity error that carries every matching line number of that range,
    in increasing order, and so returns none of them: the nearby search
    over the clamped window, the global search (reached when the window has
    no match) over the whole buffer. *)
Theorem resolveLineHash_ambiguous (n : Z) (h : string) (lines : list string)
    (hashIndex : gmap Z string) (modifiedLines : gset Z) :
  let len := Z.of_nat (length lines) in
  let first := Z.max 1 (n - 10) in
  let last := Z.min len (n + 10) in
  let nearby := matchesIn hashIndex h first last in
  let global := matchesIn hashIndex h 1 len in
  let resolved := resolveLineHash (mkRef n h) lines hashIndex modifiedLines in
  hashIndex !! n ≠ Some h → n ∉ modifiedLines →
  ((1 < length nearby)%nat →
     resolved = Throw (AmbiguousNearby n h nearby)
     ∧ ∀ i, i ∈ nearby ↔ first ≤ i ≤ last ∧ hashIndex !! i = Some h)
  ∧ (nearby = [] → (1 < length global)%nat →
     resolved = Throw (AmbiguousGlobal n h global)
     ∧ ∀ i, i ∈ global ↔ 1 ≤ i ≤ len ∧ hashIndex !! i = Some h).
Proof.
  intros len first last nearby global resolved Hexact Hmod.
  subst resolved. unfold resolveLineHash. cbn [lineNumber hash]. fold len.
  rewrite !decide_False by done. rewrite !candidatesBetween_matchesIn.
  unfold nearbyRange. fold first last nearby global.
  split.
  - intros Hmany. split.
    + destruct nearby as [|x [|y l]]; simpl in Hmany; [lia | lia | done].
    + intros i. apply elem_of_matchesIn.
  - intros -> Hmany. split.
    + destruct global as [|x [|y l]]; simpl in Hmany; [lia | lia | done].
    + intros i. apply elem_of_matchesIn.
Qed.

(** ** The error monad *)

Lemma bind_Ok {A B} (m : result A) (f : A → result B) (b : B) :
  m ≫= f = Ok b ↔ ∃ a, m = Ok a ∧ f a = Ok b.
Proof.
  destruct m as [a | e]; unfold mbind, result_bind.
  - split; [by exists a | by intros (? & [= <-] & ?)].
  - split; [done | by intros (? & ? & ?)].
Qed.

Lemma bind_Throw {A B} (m : result A) (f : A → result B) (e : Error) :
  m ≫= f = Throw e ↔ m = Throw e ∨ ∃ a, m = Ok a ∧ f a = Throw e.
Proof.
  destruct m as [a | e']; unfold mbind, result_bind.
  - split; [right; by exists a | by intros [? | (? & [= <-] & ?)]].
  - split; [intros [= ->]; by left | by intros [[= ->] | (? & ? & ?)]].
Qed.

(** ** The hash index *)

Lemma setHashes_outside (rest : list string) (i k : Z) (hashIndex : gmap Z string) :
  k ≤ i ∨ i + Z.of_nat (length rest) < k →
  setHashes i rest hashIndex !! k = hashIndex !! k.
Proof.
  revert i hashIndex. induction rest as [|line rest IH]; intros i hashIndex Hk;
    [done |].
  cbn [setHashes]. rewrite IH by (simpl in Hk; lia).
  apply lookup_insert_ne. simpl in Hk. lia.
Qed.

Lemma setHashes_inside (rest : list string) (i : Z) (hashIndex : gmap Z string)
    (j : nat) (line : string) :
  rest !! j = Some line →
  setHashes i rest hashIndex !! (i + Z.of_nat j + 1)
  = Some (generateLineHash line (i + Z.of_nat j + 1)).
Proof.
  revert i hashIndex j. induction rest as [|first rest IH]; intros i hashIndex j Hj;
    [done |].
  cbn [setHashes]. destruct j as [|j]; simpl in Hj.
  - injection Hj as ->. rewrite setHashes_outside by lia.
    replace (i + Z.of_nat 0 + 1) with (i + 1) by lia. apply lookup_insert_eq.
  - replace (i + Z.of_nat (S j) + 1) with (i + 1 + Z.of_nat j + 1) by lia.
    by apply IH.
Qed.

(** Writing the index over for a buffer makes it cover that buffer,
    whatever it held before. *)
Lemma rebuildIndex_covers (lines : list string) (hashIndex : gmap Z string) :
  indexCovers lines (rebuildIndex lines hashIndex).
Proof.
  intros i line Hi. unfold rebuildIndex.
  pose proof (setHashes_inside lines 0 hashIndex i line Hi) as Hin.
  by rewrite Z.add_0_l in Hin.
Qed.

(** Entries above the new line count are left as they were. *)
Lemma rebuildIndex_keeps (lines : list string) (hashIndex : gmap Z string) (k : Z) :
  Z.of_nat (length lines) < k →
  rebuildIndex lines hashIndex !! k = hashIndex !! k.
Proof. intros Hk. apply setHashes_outside. lia. Qed.

Lemma setHashes_fingerprints (rest : list string) (i : Z) (hashIndex : gmap Z string) :
  indexOfFingerprints hashIndex → indexOfFingerprints (setHashes i rest hashIndex).
Proof.
  revert i hashIndex. induction rest as [|line rest IH]; intros i hashIndex Hfp;
    [done |].
  cbn [setHashes]. apply IH. intros k h.
  rewrite lookup_insert. case_decide.
  - intros [= <-]. apply generateLineHash_fingerprint.
  - apply Hfp.
Qed.

(** ** One operation *)

Lemma resolveInRange_Ok (st : EditState) (ref : LineRef) (n : Z) :
  resolveInRange st ref = Ok n
  ↔ resolveLineHash ref st.(lines) st.(hashIndex) st.(modifiedLines) = Ok n
    ∧ 1 ≤ n ≤ Z.of_nat (length st.(lines)).
Proof.
  unfold resolveInRange. rewrite bind_Ok. split.
  - intros (m & Hres & Hcheck).
    destruct (m <? 1) eqn:Hlo; [done |].
    destruct (Z.of_nat (length (lines st)) <? m) eqn:Hhi; [done |].
    simpl in Hcheck. injection Hcheck as ->. split; [done | lia].
  - intros [Hres Hrange]. exists n. split; [done |].
    replace (n <? 1) with false by lia.
    by replace (Z.of_nat (length (lines st)) <? n) with false by lia.
Qed.

Lemma parseOrThrow_Ok (token : string) (ref : LineRef) :
  parseOrThrow token = Ok ref ↔ parseLineHash token = Some ref.
Proof.
  unfold parseOrThrow. destruct (parseLineHash token); split; congruence.
Qed.

(** What a successful [replace_line] did. *)
Lemma replace_line_Ok (st st' : EditState) (lineHash newText : string) :
  applyEdit (replace_line lineHash newText) st = Ok st' →
  ∃ n, 1 ≤ n ≤ Z.of_nat (length st.(lines))
    ∧ st'.(lines) = <[Z.to_nat (n - 1) := newText]> st.(lines)
    ∧ st'.(hashIndex) = <[n := generateLineHash newText n]> st.(hashIndex)
    ∧ st'.(modifiedLines) = {[n]} ∪ st.(modifiedLines).
Proof.
  cbn [applyEdit]. intros (ref & _ & (n & [_ Hn]%resolveInRange_Ok & [= <-])%bind_Ok)%bind_Ok.
  by exists n.
Qed.

(** What a successful operation other than [replace_line] did to the index
    and the modified set. *)
Lemma restructuring_Ok (edit : Edit) (st st' : EditState) :
  (∀ lineHash newText, edit ≠ replace_line lineHash newText) →
  applyEdit edit st = Ok st' →
  st'.(hashIndex) = rebuildIndex st'.(lines) st.(hashIndex)
  ∧ st'.(modifiedLines) = ∅.
Proof.
  intros Hkind Happly. destruct edit as [tok txt | t1 t2 new | tok new | tok | t1 t2];
    cbn [applyEdit] in Happly.
  - by destruct (Hkind tok txt).
  - destruct (parseLineHash t1), (parseLineHash t2); try done.
    apply bind_Ok in Happly as ([s e] & _ & [= <-]). done.
  - apply bind_Ok in Happly as (ref & _ & (n & _ & [= <-])%bind_Ok). done.
  - apply bind_Ok in Happly as (ref & _ & (n & _ & [= <-])%bind_Ok). done.
  - destruct (parseLineHash t1), (parseLineHash t2); try done.
    apply bind_Ok in Happly as ([s e] & _ & [= <-]). done.
Qed.

Lemma applyEdit_covers (edit : Edit) (st st' : EditState) :
  indexCovers st.(lines) st.(hashIndex) →
  applyEdit edit st = Ok st' →
  indexCovers st'.(lines) st'.(hashIndex).
Proof.
  intros Hinv Happly.
  assert ((∃ lineHash newText, edit = replace_line lineHash newText)
          ∨ (∀ lineHash newText, edit ≠ replace_line lineHash newText))
    as [(tok & txt & ->) | Hother] by (destruct edit; eauto).
  - apply replace_line_Ok in Happly as (n & Hn & -> & -> & _).
    intros i line Hi.
    destruct (decide (i = Z.to_nat (n - 1))) as [-> | Hne].
    + rewrite list_lookup_insert_eq in Hi by lia. injection Hi as <-.
      replace (Z.of_nat (Z.to_nat (n - 1)) + 1) with n by lia.
      apply lookup_insert_eq.
    + rewrite list_lookup_insert_ne in Hi by done.
      rewrite lookup_insert_ne by lia. by apply Hinv.
  - apply restructuring_Ok in Happly as [-> _]; [apply rebuildIndex_covers | done].
Qed.

Lemma applyEdits_covers (aborted : bool) (edits : list Edit) (st st' : EditState) :
  indexCovers st.(lines) st.(hashIndex) →
  applyEdits aborted edits st = Ok st' →
  indexCovers st'.(lines) st'.(hashIndex).
Proof.
  revert st. induction edits as [|edit edits IH]; intros st Hinv Hrun;
    cbn [applyEdits] in Hrun.
  - by injection Hrun as <-.
  - destruct aborted; [done |].
    apply bind_Ok in Hrun as (st1 & Hstep & Hrest).
    eapply IH; [| done]. by eapply applyEdit_covers.
Qed.

(** C4. In an edit call the index maps every line number of the current
    buffer to the fingerprint of that line, at the start and after each
    applied operation. [replace_line] keeps it so by writing the one entry
    of the line it replaced; every other operation writes the entry of
    every line of the new buffer and empties the modified set. *)
Theorem hash_index_invariant :
  (∀ buffer : string,
     indexCovers (initialState buffer).(lines) (initialState buffer).(hashIndex))
  ∧ (∀ (aborted : bool) (buffer : string) (applied : list Edit) (st : EditState),
       applyEdits aborted applied (initialState buffer) = Ok st →
       indexCovers st.(lines) st.(hashIndex))
  ∧ (∀ (edit : Edit) (st st' : EditState),
       indexCovers st.(lines) st.(hashIndex) →
       applyEdit edit st = Ok st' →
       indexCovers st'.(lines) st'.(hashIndex))
  ∧ (∀ (lineHash newText : string) (st st' : EditState),
       applyEdit (replace_line lineHash newText) st = Ok st' →
       ∃ n, 1 ≤ n ≤ Z.of_nat (length st.(lines))
         ∧ st'.(lines) = <[Z.to_nat (n - 1) := newText]> st.(lines)
         ∧ st'.(hashIndex) = <[n := generateLineHash newText n]> st.(hashIndex)
         ∧ st'.(modifiedLines) = {[n]} ∪ st.(modifiedLines))
  ∧ (∀ (edit : Edit) (st st' : EditState),
       (∀ lineHash newText, edit ≠ replace_line lineHash newText) →
       applyEdit edit st = Ok st' →
       st'.(hashIndex) = rebuildIndex st'.(lines) st.(hashIndex)
       ∧ st'.(modifiedLines) = ∅
       ∧ indexCovers st'.(lines) st'.(hashIndex)).
Proof.
  split; [| split; [| split; [| split]]].
  - intros buffer. apply rebuildIndex_covers.
  - intros aborted buffer applied st. apply applyEdits_covers, rebuildIndex_covers.
  - apply applyEdit_covers.
  - intros tok txt st st'. apply replace_line_Ok.
  - intros edit st st' Hkind Happly.
    destruct (restructuring_Ok edit st st' Hkind Happly) as [Hindex Hmodified].
    split; [done | split; [done |]]. rewrite Hindex. apply rebuildIndex_covers.
Qed.

(** ** Verification of a range *)

Section Verify.

Context (lines : list string) (hashIndex : gmap Z string) (modifiedLines : gset Z).

(** The verification loop stops at the first stale line, and passes when
    there is none. *)
Lemma verifyFrom_cases (fuel : nat) (i : Z) :
  (verifyFrom lines hashIndex modifiedLines fuel i = Ok tt
   ∧ ∀ k, i ≤ k < i + Z.of_nat fuel → ¬ staleLine lines hashIndex modifiedLines k)
  ∨ (∃ k, i ≤ k < i + Z.of_nat fuel ∧ staleLine lines hashIndex modifiedLines k
       ∧ (∀ j, i ≤ j < k → ¬ staleLine lines hashIndex modifiedLines j)
       ∧ verifyFrom lines hashIndex modifiedLines fuel i = Throw (HashMismatch k)).
Proof.
  revert i. induction fuel as [|fuel IH]; intros i.
  - left. split; [done | lia].
  - cbn [verifyFrom].
    assert (∀ P : Z → Prop, P i → (∀ k, i + 1 ≤ k < i + 1 + Z.of_nat fuel → P k) →
            ∀ k, i ≤ k < i + Z.of_nat (S fuel) → P k) as Hextend.
    { intros P Hi Hrest k Hk. destruct (decide (k = i)) as [-> | ?]; [done |].
      apply Hrest. lia. }
    destruct (decide (i ∈ modifiedLines)) as [Hmod | Hmod].
    + destruct (IH (i + 1)) as [[Hok Hnone] | (k & Hk & Hstale & Hfirst & Hthrow)].
      * left. split; [done |]. apply Hextend; [| done]. by intros [? _].
      * right. exists k. split; [lia |]. split; [done |]. split; [| done].
        intros j Hj. destruct (decide (j = i)) as [-> | ?]; [by intros [? _] |].
        apply Hfirst. lia.
    + destruct (decide (Some _ = hashIndex !! i)) as [Heq | Hne].
      * destruct (IH (i + 1)) as [[Hok Hnone] | (k & Hk & Hstale & Hfirst & Hthrow)].
        -- left. split; [done |]. apply Hextend; [| done]. by intros [_ ?].
        -- right. exists k. split; [lia |]. split; [done |]. split; [| done].
           intros j Hj. destruct (decide (j = i)) as [-> | ?]; [by intros [_ ?] |].
           apply Hfirst. lia.
      * right. exists i. split; [lia |]. split; [by split |]. split; [lia | done].
Qed.

Lemma verifyFrom_mismatch (fuel : nat) (i : Z) :
  (∃ k, verifyFrom lines hashIndex modifiedLines fuel i = Throw (HashMismatch k))
  ↔ ∃ k, i ≤ k < i + Z.of_nat fuel ∧ staleLine lines hashIndex modifiedLines k.
Proof.
  destruct (verifyFrom_cases fuel i) as [[Hok Hnone] | (k & Hk & Hstale & _ & Hthrow)].
  - rewrite Hok. split; [by intros [? ?] | intros (k & Hk & Hstale)].
    by destruct (Hnone k Hk).
  - split; [by exists k | intros _; by exists k].
Qed.

Lemma verifyFrom_result (fuel : nat) (i : Z) :
  verifyFrom lines hashIndex modifiedLines fuel i = Ok tt
  ∨ ∃ k, verifyFrom lines hashIndex modifiedLines fuel i = Throw (HashMismatch k).
Proof.
  destruct (verifyFrom_cases fuel i) as [[Hok _] | (k & _ & _ & _ & Hthrow)];
    [by left | right; by exists k].
Qed.

End Verify.

(** Once both ends resolved within bounds, a range operation goes on or
    fails as the verification loop says. *)
Lemma resolveRange_verified (st : EditState) (startRef endRef : LineRef) (s e : Z) :
  resolveLineHash startRef st.(lines) st.(hashIndex) st.(modifiedLines) = Ok s →
  resolveLineHash endRef st.(lines) st.(hashIndex) st.(modifiedLines) = Ok e →
  1 ≤ s ≤ Z.of_nat (length st.(lines)) →
  s ≤ e ≤ Z.of_nat (length st.(lines)) →
  resolveRange st startRef endRef = (verifyRange st s e ≫= λ _, Ok (s, e)).
Proof.
  intros Hs He Hsr Her. unfold resolveRange. rewrite Hs, He.
  unfold mbind at 1 2, result_bind at 1 2.
  replace (s <? 1) with false by lia.
  replace (Z.of_nat (length (lines st)) <? s) with false by lia.
  replace (e <? s) with false by lia.
  by replace (Z.of_nat (length (lines st)) <? e) with false by lia.
Qed.

(** C5. In [replace_range] and [delete_range], once both ends of the range
    resolved and passed the bounds checks, every line of the inclusive
    range that is not in the modified set is checked against the index:
    the operation fails with a hash mismatch exactly when such a line has a
    fingerprint other than its index entry, and goes through otherwise. *)
Theorem range_hash_verification (st : EditState) (startHash endHash : string)
    (newLines : list string) (startRef endRef : LineRef) (s e : Z) :
  parseLineHash startHash = Some startRef →
  parseLineHash endHash = Some endRef →
  resolveLineHash startRef st.(lines) st.(hashIndex) st.(modifiedLines) = Ok s →
  resolveLineHash endRef st.(lines) st.(hashIndex) st.(modifiedLines) = Ok e →
  1 ≤ s ≤ Z.of_nat (length st.(lines)) →
  s ≤ e ≤ Z.of_nat (length st.(lines)) →
  let changed :=
    ∃ (i : Z) (line : string),
      s ≤ i ≤ e ∧ (i ∉ st.(modifiedLines))
      ∧ st.(lines) !! Z.to_nat (i - 1) = Some line
      ∧ st.(hashIndex) !! i ≠ Some (generateLineHash line i) in
  ((∃ i, applyEdit (replace_range startHash endHash newLines) st
         = Throw (HashMismatch i)) ↔ changed)
  ∧ ((∃ i, applyEdit (delete_range startHash endHash) st
           = Throw (HashMismatch i)) ↔ changed)
  ∧ (¬ changed →
     succeeded (applyEdit (replace_range startHash endHash newLines) st) = true
     ∧ succeeded (applyEdit (delete_range startHash endHash) st) = true).
Proof.
  intros Hp1 Hp2 Hs He Hsr Her changed.
  assert ((∃ k, verifyRange st s e = Throw (HashMismatch k)) ↔ changed) as Hverify.
  { unfold verifyRange. rewrite verifyFrom_mismatch. unfold changed, staleLine.
    split.
    - intros (k & Hk & Hmod & Hne).
      destruct (lookup_lt_is_Some_2 st.(lines) (Z.to_nat (k - 1))) as [line Hline];
        [lia |].
      exists k, line. rewrite Hline in Hne. repeat split; try done; lia.
    - intros (k & line & Hk & Hmod & Hline & Hne). exists k.
      rewrite Hline. repeat split; try done; lia. }
  cbn [applyEdit]. rewrite Hp1, Hp2.
  rewrite (resolveRange_verified st startRef endRef s e) by done.
  destruct (verifyFrom_result st.(lines) st.(hashIndex) st.(modifiedLines)
              (Z.to_nat (e - s + 1)) s) as [Hok | [k Hthrow]];
    fold (verifyRange st s e) in *.
  - rewrite Hok in *. simpl.
    split; [| split].
    + rewrite <- Hverify. split; intros [? ?]; done.
    + rewrite <- Hverify. split; intros [? ?]; done.
    + done.
  - rewrite Hthrow in *. simpl.
    assert changed as Hchanged by (apply Hverify; by exists k).
    split; [| split].
    + split; [done | by exists k].
    + split; [done | by exists k].
    + intros Hnot. by destruct Hnot.
Qed.

(** C8. [insert_after] puts the new lines right after the line its
    reference resolves to and keeps every old line, in order, around them.
    When the reference resolves to the last line the operation goes
    through, with no out-of-range error, and the new lines end the
    buffer. *)
Theorem insert_after_splices (st : EditState) (lineHash : string)
    (newLines : list string) (ref : LineRef) (n : Z) :
  parseLineHash lineHash = Some ref →
  resolveLineHash ref st.(lines) st.(hashIndex) st.(modifiedLines) = Ok n →
  1 ≤ n ≤ Z.of_nat (length st.(lines)) →
  ∃ st', applyEdit (insert_after lineHash newLines) st = Ok st'
    ∧ st'.(lines)
      = take (Z.to_nat n) st.(lines) ++ newLines ++ drop (Z.to_nat n) st.(lines)
    ∧ (n = Z.of_nat (length st.(lines)) → st'.(lines) = st.(lines) ++ newLines).
Proof.
  intros Hparse Hresolve Hrange. cbn [applyEdit].
  apply parseOrThrow_Ok in Hparse. rewrite Hparse. cbn [mbind result_bind].
  assert (resolveInRange st ref = Ok n) as -> by by apply resolveInRange_Ok.
  cbn [mbind result_bind].
  eexists. split; [reflexivity |]. split; [reflexivity |].
  intros ->. cbn [lines restructured]. rewrite Nat2Z.id.
  by rewrite firstn_all, drop_all, app_nil_r.
Qed.

(** ** The edit call and the file *)

Lemma applyEdits_app (aborted : bool) (pre post : list Edit) (st : EditState) :
  applyEdits aborted (pre ++ post) st
  = applyEdits aborted pre st ≫= applyEdits aborted post.
Proof.
  revert st. induction pre as [|edit pre IH]; intros st; [done |].
  cbn [app applyEdits]. destruct aborted; [done |].
  destruct (applyEdit edit st) as [st1 | e]; [| done].
  cbn [mbind result_bind]. apply IH.
Qed.

(** A batch with an operation that fails when its turn comes fails as a
    whole. *)
Lemma applyEdits_failing_operation (aborted : bool) (pre post : list Edit)
    (op : Edit) (st0 st : EditState) (e : Error) :
  applyEdits false pre st0 = Ok st →
  applyEdit op st = Throw e →
  ∃ e', applyEdits aborted (pre ++ op :: post) st0 = Throw e'.
Proof.
  intros Hpre Hop. destruct aborted.
  - exists OperationAborted. by destruct pre.
  - exists e. rewrite applyEdits_app, Hpre. cbn [mbind result_bind applyEdits].
    by rewrite Hop.
Qed.

(** The edit call, step by step: what it returns and the file system it
    leaves. *)
Lemma edit_hashline_run `{Host} (signal : Signal) (path : string)
    (edits : list Edit) (responseMode : ResponseMode) (fs : gmap string string) :
  edit_hashline signal path edits responseMode fs
  = if signal.(abortedAtEntry) then (Throw OperationAborted, fs)
    else
      match fs !! resolvePath path with
      | None => (Throw (NoSuchFile (resolvePath path)), fs)
      | Some data =>
          if MAX_FILE_SIZE <? Z.of_nat (String.length data)
          then (Throw (FileTooLarge (Z.of_nat (String.length data))), fs)
          else if isLikelyBinary (resolvePath path)
          then (Throw (FileAppearsBinary (extname (resolvePath path))), fs)
          else
            match applyEdits signal.(abortedInLoop) edits (initialState data) with
            | Throw e => (Throw e, fs)
            | Ok st =>
                (Ok {| editsApplied := length edits;
                       affectedRegion := affectedRegionOf st responseMode |},
                 <[resolvePath path := join st.(lines)]> fs)
            end
      end.
Proof.
  unfold edit_hashline, validateFileForReading, statSize, readFile, writeFile,
    liftResult, throw.
  unfold mbind, mret, IO_bind, IO_ret. cbv beta.
  destruct (abortedAtEntry signal); [done |].
  destruct (fs !! resolvePath path) as [data |] eqn:Hfile; [| done].
  destruct (MAX_FILE_SIZE <? _); [done |].
  destruct (isLikelyBinary _); [done |].
  rewrite Hfile. by destruct (applyEdits _ edits _).
Qed.

(** C2. An edit call that fails leaves the file system as it was: whatever
    goes wrong in an operation of the batch (a malformed reference, bounds
    out of range or reversed, an ambiguous or unresolvable reference, a
    hash mismatch in a range), nothing has been written when the error is
    thrown. The file is written, once and with the joined final buffer,
    only when every operation of the batch went through. *)
Theorem edit_hashline_all_or_nothing `{Host} (signal : Signal) (path : string)
    (edits : list Edit) (responseMode : ResponseMode) (fs : gmap string string) :
  let run := edit_hashline signal path edits responseMode fs in
  (∀ e, run.1 = Throw e → run.2 = fs)
  ∧ (∀ (data : string) (pre post : list Edit) (op : Edit) (st : EditState) (e : Error),
       fs !! resolvePath path = Some data →
       edits = pre ++ op :: post →
       applyEdits false pre (initialState data) = Ok st →
       applyEdit op st = Throw e →
       ∃ e', run = (Throw e', fs))
  ∧ (∀ details, run.1 = Ok details →
       ∃ (data : string) (st : EditState),
         fs !! resolvePath path = Some data
         ∧ applyEdits signal.(abortedInLoop) edits (initialState data) = Ok st
         ∧ run.2 = <[resolvePath path := join st.(lines)]> fs).
Proof.
  intros run. subst run. rewrite edit_hashline_run.
  split; [| split].
  - intros e.
    destruct (abortedAtEntry signal); [done |].
    destruct (fs !! resolvePath path) as [data |]; [| done].
    destruct (MAX_FILE_SIZE <? _); [done |].
    destruct (isLikelyBinary _); [done |].
    by destruct (applyEdits _ edits _).
  - intros data pre post op st e Hfile -> Hpre Hop.
    destruct (applyEdits_failing_operation signal.(abortedInLoop) pre post op
                (initialState data) st e Hpre Hop) as [e' Hfail].
    rewrite Hfile.
    destruct (abortedAtEntry signal); [by eexists |].
    destruct (MAX_FILE_SIZE <? _); [by eexists |].
    destruct (isLikelyBinary _); [by eexists |].
    rewrite Hfail. by eexists.
  - intros details.
    destruct (abortedAtEntry signal); [done |].
    destruct (fs !! resolvePath path) as [data |]; [| done].
    destruct (MAX_FILE_SIZE <? _); [done |].
    destruct (isLikelyBinary _); [done |].
    destruct (applyEdits _ edits _) as [st |] eqn:Hrun; [| done].
    intros _. by exists data, st.
Qed.

(** ** References in uppercase *)

Lemma lower_not_upper (c : ascii) : isLowerHex c = true → isUpperHex c = false.
Proof.
  unfold isLowerHex, isUpperHex, isDigit. generalize (code c). intros z. lia.
Qed.

Lemma fingerprint_has_no_upper (h : string) :
  isFingerprint h = true → existsb isUpperHex (list_ascii_of_string h) = false.
Proof.
  unfold isFingerprint. intros [_ Hlower]%andb_prop. revert Hlower.
  induction (list_ascii_of_string h) as [|c l IH]; [done |]. simpl.
  intros [Hc Hl]%andb_prop. by rewrite (lower_not_upper c Hc), IH.
Qed.

Lemma spanDigits_run (digits : list ascii) (rest : string) :
  forallb isDigit digits = true →
  spanDigits (string_of_list_ascii digits +:+ String ":" rest)
  = (digits, String ":" rest).
Proof.
  induction digits as [|d digits IH]; [done |]. simpl.
  intros [-> Hds]%andb_prop. by rewrite IH.
Qed.

Lemma initialState_fingerprints (buffer : string) :
  indexOfFingerprints (initialState buffer).(hashIndex).
Proof. apply setHashes_fingerprints. by intros i h. Qed.

Lemma applyEdit_fingerprints (edit : Edit) (st st' : EditState) :
  indexOfFingerprints st.(hashIndex) →
  applyEdit edit st = Ok st' →
  indexOfFingerprints st'.(hashIndex).
Proof.
  intros Hinv Happly.
  assert ((∃ lineHash newText, edit = replace_line lineHash newText)
          ∨ (∀ lineHash newText, edit ≠ replace_line lineHash newText))
    as [(tok & txt & ->) | Hother] by (destruct edit; eauto).
  - apply replace_line_Ok in Happly as (n & _ & _ & -> & _).
    intros k h. rewrite lookup_insert. case_decide.
    + intros [= <-]. apply generateLineHash_fingerprint.
    + apply Hinv.
  - apply restructuring_Ok in Happly as [-> _]; [| done].
    by apply setHashes_fingerprints.
Qed.

Lemma applyEdits_fingerprints (aborted : bool) (edits : list Edit)
    (st st' : EditState) :
  indexOfFingerprints st.(hashIndex) →
  applyEdits aborted edits st = Ok st' →
  indexOfFingerprints st'.(hashIndex).
Proof.
  revert st. induction edits as [|edit edits IH]; intros st Hinv Hrun;
    cbn [applyEdits] in Hrun.
  - by injection Hrun as <-.
  - destruct aborted; [done |].
    apply bind_Ok in Hrun as (st1 & Hstep & Hrest).
    eapply IH; [| done]. by eapply applyEdit_fingerprints.
Qed.

(** A hash that no entry of the index equals is found nowhere. *)
Lemma resolveLineHash_absent (ref : LineRef) (lines : list string)
    (hashIndex : gmap Z string) (modifiedLines : gset Z) :
  (∀ i, hashIndex !! i ≠ Some ref.(hash)) →
  ref.(lineNumber) ∉ modifiedLines →
  resolveLineHash ref lines hashIndex modifiedLines
  = Throw (HashNotFound ref.(lineNumber) ref.(hash)).
Proof.
  intros Habsent Hmod.
  assert (∀ first last, matchesIn hashIndex ref.(hash) first last = []) as Hnone.
  { intros first last. destruct (matchesIn _ _ first last) as [|x l] eqn:Hm; [done |].
    assert (x ∈ matchesIn hashIndex ref.(hash) first last) as Hx
      by (rewrite Hm; by left).
    apply elem_of_matchesIn in Hx as [_ Hx]. by destruct (Habsent x). }
  unfold resolveLineHash. rewrite !decide_False by auto.
  by rewrite !candidatesBetween_matchesIn, !Hnone.
Qed.

(** C9. A token whose hash part has an uppercase letter is accepted by the
    parser, which keeps its case, but no fingerprint equals it, since
    fingerprints are lowercase: in any state an edit call reaches, for a
    line number outside the modified set, resolution fails with the
    not-found error, whatever the buffer holds. *)
Theorem uppercase_hash_never_resolves (digits : list ascii) (h : string) :
  digits ≠ [] →
  forallb isDigit digits = true →
  String.length h = 6%nat →
  forallb isHexIgnoreCase (list_ascii_of_string h) = true →
  existsb isUpperHex (list_ascii_of_string h) = true →
  let token := string_of_list_ascii digits +:+ String ":" h in
  let n := parseInt digits in
  parseLineHash token = Some (mkRef n h)
  ∧ (∀ (line : string) (k : Z), generateLineHash line k ≠ h)
  ∧ (∀ (aborted : bool) (buffer : string) (applied : list Edit) (st : EditState),
       applyEdits aborted applied (initialState buffer) = Ok st →
       n ∉ st.(modifiedLines) →
       resolveLineHash (mkRef n h) st.(lines) st.(hashIndex) st.(modifiedLines)
       = Throw (HashNotFound n h)).
Proof.
  intros Hne Hdigits Hlen Hhex Hupper token n.
  assert (∀ s, isFingerprint s = true → s ≠ h) as Hnot.
  { intros s Hs ->. apply fingerprint_has_no_upper in Hs. congruence. }
  split; [| split].
  - subst token. unfold parseLineHash. rewrite spanDigits_run by done.
    destruct digits as [|d ds]; [done |].
    by rewrite Hlen, Hhex.
  - intros line k. apply Hnot, generateLineHash_fingerprint.
  - intros aborted buffer applied st Hrun Hmod.
    apply (resolveLineHash_absent (mkRef n h)); [| done].
    intros i Hi. simpl in Hi.
    eapply Hnot; [| reflexivity].
    eapply applyEdits_fingerprints; [| exact Hrun | exact Hi].
    apply initialState_fingerprints.
Qed.

(** ** Shifted references *)

Lemma matchesIn_unique (hashIndex : gmap Z string) (hash : string)
    (first last c : Z) :
  first ≤ c ≤ last →
  hashIndex !! c = Some hash →
  (∀ i, first ≤ i ≤ last → hashIndex !! i = Some hash → i = c) →
  matchesIn hashIndex hash first last = [c].
Proof.
  intros Hc Hhit Honly.
  destruct (NoDup_all_equal (matchesIn hashIndex hash first last) c) as [Hnil | Hone];
    [apply NoDup_matchesIn | | | done].
  - intros x [Hx Hhx]%elem_of_matchesIn. by apply Honly.
  - assert (c ∈ matchesIn hashIndex hash first last) as Hin
      by by apply elem_of_matchesIn.
    rewrite Hnil in Hin. by apply not_elem_of_nil in Hin.
Qed.

(** A reference whose line number no longer has its hash, in a buffer where
    one line of the window has it, resolves to that line. *)
Lemma resolveLineHash_shifted (ref : LineRef) (lines : list string)
    (hashIndex : gmap Z string) (modifiedLines : gset Z) (c : Z) :
  hashIndex !! ref.(lineNumber) ≠ Some ref.(hash) →
  ref.(lineNumber) ∉ modifiedLines →
  Z.max 1 (ref.(lineNumber) - 10) ≤ c
    ≤ Z.min (Z.of_nat (length lines)) (ref.(lineNumber) + 10) →
  hashIndex !! c = Some ref.(hash) →
  (∀ i, 1 ≤ i ≤ Z.of_nat (length lines) →
        hashIndex !! i = Some ref.(hash) → i = c) →
  resolveLineHash ref lines hashIndex modifiedLines = Ok c.
Proof.
  intros Hexact Hmod Hc Hhit Honly. unfold resolveLineHash.
  rewrite !decide_False by done. rewrite candidatesBetween_matchesIn.
  unfold nearbyRange. rewrite (matchesIn_unique _ _ _ _ c); try done.
  intros i Hi. apply Honly. lia.
Qed.

Lemma distinct_fingerprints (ls : list string) (i j : nat) (a b : string) :
  NoDup (fingerprint <$> ls) →
  ls !! i = Some a → ls !! j = Some b → fingerprint a = fingerprint b → i = j.
Proof.
  intros Hnd Ha Hb Heq.
  apply (NoDup_lookup (fingerprint <$> ls) i j (fingerprint a)); [done | |].
  - by rewrite list_lookup_fmap, Ha.
  - by rewrite list_lookup_fmap, Hb, Heq.
Qed.

(** C7, as the code has it. In a file of at least nine lines whose
    fingerprints are pairwise distinct, deleting line 5 through its own
    reference goes through, moves the later lines up by one, and then a
    reference recorded as line 8 with the fingerprint of the original
    line 8 resolves to line 7. *)
Theorem shift_after_delete_line (buffer lineHash l5 l8 : string) :
  (9 ≤ length (split buffer))%nat →
  NoDup (fingerprint <$> split buffer) →
  split buffer !! 4%nat = Some l5 →
  split buffer !! 7%nat = Some l8 →
  parseLineHash lineHash = Some (mkRef 5 (fingerprint l5)) →
  ∃ st', applyEdit (delete_line lineHash) (initialState buffer) = Ok st'
    ∧ st'.(lines) = delete 4%nat (split buffer)
    ∧ resolveLineHash (mkRef 8 (fingerprint l8))
        st'.(lines) st'.(hashIndex) st'.(modifiedLines) = Ok 7.
Proof.
  intros Hlen Hnd H5 H8 Hparse.
  set (ls := split buffer) in *.
  assert (resolveInRange (initialState buffer) (mkRef 5 (fingerprint l5)) = Ok 5)
    as Hfive.
  { apply resolveInRange_Ok. cbn [lines hashIndex modifiedLines initialState].
    fold ls. split; [| lia].
    unfold resolveLineHash. cbn [lineNumber hash].
    rewrite decide_True; [done |].
    apply (rebuildIndex_covers ls ∅ 4%nat l5 H5). }
  cbn [applyEdit]. apply parseOrThrow_Ok in Hparse. rewrite Hparse.
  cbn [mbind result_bind]. rewrite Hfive. cbn [mbind result_bind].
  eexists. split; [reflexivity |].
  cbn [lines hashIndex modifiedLines restructured initialState]. fold ls.
  replace (take (Z.to_nat (5 - 1)) ls ++ drop (Z.to_nat (5 - 1) + 1) ls)
    with (delete 4%nat ls) by (rewrite delete_take_drop; done).
  split; [done |].
  set (ls' := delete 4%nat ls).
  assert (length ls' = (length ls - 1)%nat) as Hlen'.
  { subst ls'. rewrite length_delete; [done |]. by eexists. }
  assert (∀ (i : nat) (x : string),
            ls' !! i = Some x →
            ls !! (if decide (i < 4)%nat then i else S i) = Some x) as Hold.
  { intros i x Hx. subst ls'. case_decide.
    - by rewrite list_lookup_delete_lt in Hx.
    - by rewrite list_lookup_delete_ge in Hx by lia. }
  assert (∀ (i : Z) (x : string),
            1 ≤ i → ls' !! Z.to_nat (i - 1) = Some x →
            rebuildIndex ls' (rebuildIndex ls ∅) !! i = Some (fingerprint x)) as Hindex.
  { intros i x Hi Hx.
    pose proof (rebuildIndex_covers ls' (rebuildIndex ls ∅) _ x Hx) as Hcov.
    by replace (Z.of_nat (Z.to_nat (i - 1)) + 1) with i in Hcov by lia. }
  apply resolveLineHash_shifted; cbn [lineNumber hash].
  - destruct (lookup_lt_is_Some_2 ls' 7%nat) as [l9 H9]; [lia |].
    rewrite (Hindex 8 l9) by done. intros [= Heq].
    apply Hold in H9. simpl in H9.
    pose proof (distinct_fingerprints ls 8%nat 7%nat l9 l8 Hnd H9 H8 Heq). lia.
  - set_solver.
  - lia.
  - apply Hindex; [lia |]. subst ls'. by rewrite list_lookup_delete_ge by lia.
  - intros i Hi Hhit.
    destruct (lookup_lt_is_Some_2 ls' (Z.to_nat (i - 1))) as [x Hx]; [lia |].
    rewrite (Hindex i x) in Hhit by (done || lia). injection Hhit as Heq.
    apply Hold in Hx.
    pose proof (distinct_fingerprints ls _ 7%nat x l8 Hnd Hx H8 Heq) as Hpos.
    case_decide; lia.
Qed.

(** ** Numbers that need not be whole *)

Lemma mathMax_cases (a b : Q) :
  (a <= b)%Q ∧ mathMax a b = b ∨ (b < a)%Q ∧ mathMax a b = a.
Proof.
  unfold mathMax. destruct (Qle_bool a b) eqn:Hle.
  - left. by apply Qle_bool_iff in Hle.
  - right. split; [| done]. apply Qnot_le_lt. intros Hab%Qle_bool_iff. congruence.
Qed.

Lemma mathMin_cases (a b : Q) :
  (a <= b)%Q ∧ mathMin a b = a ∨ (b < a)%Q ∧ mathMin a b = b.
Proof.
  unfold mathMin. destruct (Qle_bool a b) eqn:Hle.
  - left. by apply Qle_bool_iff in Hle.
  - right. split; [| done]. apply Qnot_le_lt. intros Hab%Qle_bool_iff. congruence.
Qed.

Lemma Qle_bool_false (a b : Q) : Qle_bool a b = false ↔ (b < a)%Q.
Proof.
  split.
  - intros Hle. apply Qnot_le_lt. intros Hab%Qle_bool_iff. congruence.
  - intros Hlt. destruct (Qle_bool a b) eqn:Hle; [| done].
    apply Qle_bool_iff in Hle. lra.
Qed.

Lemma Qfloor_above (x : Q) (z : Z) : (inject_Z z < x)%Q → z ≤ Qfloor x.
Proof.
  intros Hz. pose proof (Qlt_floor x) as Hx.
  apply Z.lt_succ_r. rewrite Zlt_Qlt.
  replace (Z.succ (Qfloor x)) with (Qfloor x + 1) by lia. lra.
Qed.

Lemma Qfloor_at_least (x : Q) (z : Z) : (inject_Z z <= x)%Q → z ≤ Qfloor x.
Proof. intros Hz%Qfloor_resp_le. by rewrite Qfloor_Z in Hz. Qed.

Lemma toIntegerOrInfinity_nonneg (x : Q) :
  (0 <= x)%Q → toIntegerOrInfinity x = Qfloor x ∧ 0 ≤ Qfloor x.
Proof.
  intros Hx. unfold toIntegerOrInfinity.
  rewrite (proj2 (Qle_bool_iff 0 x) Hx). split; [done |].
  by apply (Qfloor_at_least x 0).
Qed.

Lemma toIntegerOrInfinity_below (x : Q) (z : Z) :
  0 < z → (x < inject_Z z)%Q → toIntegerOrInfinity x < z.
Proof.
  intros Hz Hx. unfold toIntegerOrInfinity. destruct (Qle_bool 0 x) eqn:Hsign.
  - pose proof (Qfloor_le x). rewrite Zlt_Qlt. lra.
  - apply Qle_bool_false in Hsign. pose proof (Qceiling_lt x) as Hc.
    assert (Qceiling x - 1 < 0) by (rewrite Zlt_Qlt; change (inject_Z 0) with 0%Q; lra).
    lia.
Qed.

Lemma toIntegerOrInfinity_whole (x : Q) (z : Z) :
  x == inject_Z z → toIntegerOrInfinity x = z.
Proof.
  intros Hx. unfold toIntegerOrInfinity.
  rewrite (Qfloor_comp _ _ Hx), (Qceiling_comp _ _ Hx), Qfloor_Z, Qceiling_Z.
  by destruct (Qle_bool 0 x).
Qed.

(** A whole number prints as its decimal digits. *)
Lemma numberToString_whole `{Host} (x : Q) (z : Z) :
  x == inject_Z z → numberToString x = pretty z.
Proof.
  intros Hx. unfold numberToString, isWhole.
  rewrite (Qfloor_comp _ _ Hx), Qfloor_Z.
  by rewrite (proj2 (Qeq_bool_iff (inject_Z z) x)) by (by symmetry).
Qed.

Lemma length_split (s : string) : (1 ≤ length (split s))%nat.
Proof. unfold split. destruct (splitFirst s). simpl. lia. Qed.

(** ** The read call *)

Lemma read_hashline_run `{Host} (aborted : bool) (path : string)
    (params : ReadParams) (fs : gmap string string) :
  read_hashline aborted path params fs
  = if aborted then (Throw OperationAborted, fs)
    else
      match fs !! resolvePath path with
      | None => (Throw (NoSuchFile (resolvePath path)), fs)
      | Some data =>
          if MAX_FILE_SIZE <? Z.of_nat (String.length data)
          then (Throw (FileTooLarge (Z.of_nat (String.length data))), fs)
          else if isLikelyBinary (resolvePath path)
          then (Throw (FileAppearsBinary (extname (resolvePath path))), fs)
          else
            let allLines := split data in
            let total := Z.of_nat (length allLines) in
            match readWindow total params with
            | Throw e => (Throw e, fs)
            | Ok (startLine, endLine) =>
                let truncation :=
                  truncateHead
                    (join (hashlineLines startLine
                             (slice allLines (toIntegerOrInfinity startLine)
                                (toIntegerOrInfinity endLine)))) in
                (Ok {| text :=
                         outputTextOf params total startLine endLine truncation;
                       totalLinesInFile := total;
                       linesRead := truncation.(outputLines) |},
                 fs)
            end
      end.
Proof.
  unfold read_hashline, validateFileForReading, statSize, readFile, liftResult,
    throw.
  unfold mbind, mret, IO_bind, IO_ret. cbv beta.
  destruct aborted; [done |].
  destruct (fs !! resolvePath path) as [data |] eqn:Hfile; [| done].
  destruct (MAX_FILE_SIZE <? _); [done |].
  destruct (isLikelyBinary _); [done |].
  rewrite Hfile. cbv zeta. by destruct (readWindow _ params) as [[startLine endLine] |].
Qed.

(** A slice from a non-negative start is a suffix when it goes to the end
    of the list, and when it stops before the end without starting before
    the last element; it is empty when it starts at the end or after. *)
Lemma slice_suffix {A} (l : list A) (first last : Z) :
  0 ≤ first →
  Z.of_nat (length l) ≤ last
  ∨ last < Z.of_nat (length l) ∧ Z.of_nat (length l) - 1 ≤ first →
  slice l first last `suffix_of` l
  ∧ (Z.of_nat (length l) ≤ first → slice l first last = []).
Proof.
  intros Hfirst Hcase. unfold slice.
  replace (first <? 0) with false by lia.
  split.
  - destruct Hcase as [Hend | [Hbefore Hstart]].
    + replace (last <? 0) with false by lia.
      rewrite take_ge; [apply suffix_drop |]. rewrite length_drop. lia.
    + replace (Z.to_nat _) with 0%nat; [apply suffix_nil |].
      destruct (last <? 0) eqn:Hsign; lia.
  - intros Hbeyond. rewrite drop_ge by lia. apply take_nil.
Qed.

(** C10. The read tool treats its two ways of naming a window differently
    past the end of the file. An offset (with no [aroundLine]) of at least
    the number of lines plus one, as every whole offset greater than the
    number of lines is, is refused with the offset-beyond-end error. An
    [aroundLine] greater than the number of lines is not: the call
    succeeds, the window is clamped and selects a suffix of the file,
    which is empty when the whole window lies past the end (for a centre
    of at most 2^53, from which the source takes one away exactly), and
    the output can be empty. *)
Theorem read_beyond_end_of_file :
  (∀ (host : Host) (path data : string) (params : ReadParams)
     (fs : gmap string string),
     fs !! resolvePath path = Some data →
     Z.of_nat (String.length data) ≤ MAX_FILE_SIZE →
     isLikelyBinary (resolvePath path) = false →
     let allLines := split data in
     let total := Z.of_nat (length allLines) in
     (∀ o, params.(aroundLine) = None → params.(offset) = Some o →
        (inject_Z total + 1 <= o)%Q →
        read_hashline false path params fs
        = (Throw (OffsetBeyondEndOfFile o total), fs))
     ∧ (∀ a, params.(aroundLine) = Some a → (inject_Z total < a)%Q →
        (∃ details, read_hashline false path params fs = (Ok details, fs))
        ∧ ∃ (startLine endLine : Q) (selected : list string),
            readWindow total params = Ok (startLine, endLine)
            ∧ selected
              = slice allLines (toIntegerOrInfinity startLine)
                  (toIntegerOrInfinity endLine)
            ∧ selected `suffix_of` allLines
            ∧ ((a <= inject_Z MAX_EXACT)%Q →
               (inject_Z total <= a - 1 - default 10%Q params.(radius))%Q →
               selected = [])))
  ∧ (∃ (host : Host) (path : string) (params : ReadParams)
       (fs : gmap string string) (data : string) (a : Q) (details : ReadDetails),
       fs !! resolvePath path = Some data
       ∧ params.(aroundLine) = Some a
       ∧ (inject_Z (Z.of_nat (length (split data))) < a)%Q
       ∧ read_hashline false path params fs = (Ok details, fs)
       ∧ details.(text) = EmptyString).
Proof.
  split.
  - intros host path data params fs Hfile Hsize Hbinary allLines total.
    rewrite read_hashline_run, Hfile, Hbinary.
    replace (MAX_FILE_SIZE <? _) with false by lia. cbv zeta. fold allLines total.
    split.
    + intros o Haround Hoffset Hbeyond. unfold readWindow.
      rewrite Haround, Hoffset.
      assert (0 <= inject_Z total)%Q as Htotal
        by (change 0%Q with (inject_Z 0); rewrite <- Zle_Qle; lia).
      destruct (Qeq_bool o 0) eqn:Hzero; [apply Qeq_bool_iff in Hzero; exfalso; lra |].
      destruct (mathMax_cases 0 (o - 1)) as [[_ ->] | [Hneg _]]; [| exfalso; lra].
      by rewrite (proj2 (Qle_bool_iff (inject_Z total) (o - 1))) by lra.
    + intros a Haround Hbeyond. unfold readWindow at 1 2. rewrite Haround.
      set (r := default 10%Q params.(radius)).
      set (startLine := mathMax 0 (a - 1 - r)).
      set (endLine := mathMin (inject_Z total) (a - 1 + r + 1)).
      assert (1 ≤ total) as Hlines by (pose proof (length_split data); subst total allLines; lia).
      assert (0 <= startLine)%Q as Hstart
        by (subst startLine; destruct (mathMax_cases 0 (a - 1 - r)) as [[? ->] | [? ->]]; lra).
      destruct (toIntegerOrInfinity_nonneg startLine Hstart) as [Hfloor Hnonneg].
      destruct (slice_suffix allLines (toIntegerOrInfinity startLine)
                  (toIntegerOrInfinity endLine)) as [Hsuffix Hempty].
      { lia. }
      { fold total. subst endLine.
        destruct (mathMin_cases (inject_Z total) (a - 1 + r + 1)) as [[_ ->] | [Hshort ->]].
        - left. rewrite (toIntegerOrInfinity_whole _ total); [lia | reflexivity].
        - right. split; [by apply toIntegerOrInfinity_below; [lia |] |].
          rewrite Hfloor. apply Qfloor_above.
          unfold Z.sub. rewrite inject_Z_plus. change (inject_Z (- (1))) with (-1 # 1).
          subst startLine.
          destruct (mathMax_cases 0 (a - 1 - r)) as [[? ->] | [? ->]]; lra. }
      split; [by eexists |].
      exists startLine, endLine,
        (slice allLines (toIntegerOrInfinity startLine) (toIntegerOrInfinity endLine)).
      split; [done |]. split; [done |]. split; [done |].
      intros _ Hpast. apply Hempty. fold total. rewrite Hfloor.
      apply Qfloor_at_least. subst startLine.
      destruct (mathMax_cases 0 (a - 1 - r)) as [[? ->] | [? ->]]; lra.
  - exists exampleHost, "notes.txt", windowPastEnd, shortNotes,
      (fileOf ["first"; "second"]), 50%Q.
    eexists. split; [done |]. split; [done |]. split; [done |].
    split; [vm_compute; reflexivity | reflexivity].
Qed.

(** * The theorems at work *)

Example same_fingerprint :
  fingerprint "line 1049" = "c03cf5" ∧ fingerprint "line 1250" = "c03cf5".
Proof. split; vm_compute; reflexivity. Qed.

Example token_round_trip :
  parseLineHash (tokenOf 120 "x") = Some (mkRef 120 (fingerprint "x")).
Proof. vm_compute. reflexivity. Qed.

(** The range replacement of the specification, followed by a deletion
    through a reference taken before it. *)
Example range_replace_with_shift :
  (st1 ← applyEdit (replace_range (tokenOf 2 "b") (tokenOf 3 "c") ["x"; "y"; "z"])
          (initialState (fileOf ["a"; "b"; "c"; "d"]));
   st2 ← applyEdit (delete_line (tokenOf 4 "d")) st1;
   Ok (st1.(lines), st2.(lines)))
  = Ok (["a"; "x"; "y"; "z"; "d"], ["a"; "x"; "y"; "z"]).
Proof. vm_compute. reflexivity. Qed.



Lemma resolveLineHash_tiers_witness :
  resolveLineHash (mkRef 2 (fingerprint "b")) threeLines
    (rebuildIndex threeLines ∅) ∅ = Ok 2
  ∧ resolveLineHash (mkRef 2 (fingerprint "other")) threeLines
      (rebuildIndex threeLines ∅) {[2]} = Ok 2
  ∧ resolveLineHash (mkRef 1 (fingerprint "b")) threeLines
      (rebuildIndex threeLines ∅) ∅ = Ok 2
  ∧ resolveLineHash (mkRef 30 (fingerprint "b")) threeLines
      (rebuildIndex threeLines ∅) ∅ = Ok 2
  ∧ resolveLineHash (mkRef 1 (fingerprint "other")) threeLines
      (rebuildIndex threeLines ∅) ∅
    = Throw (HashNotFound 1 (fingerprint "other")).
Proof.
  split; [| split; [| split; [| split]]].
  - pose proof (resolveLineHash_tiers 2 (fingerprint "b") threeLines
                  (rebuildIndex threeLines ∅) ∅) as Htiers.
    cbv zeta in Htiers. destruct Htiers as (Hexact & _).
    exact (Hexact ltac:(evaluate)).
  - pose proof (resolveLineHash_tiers 2 (fingerprint "other") threeLines
                  (rebuildIndex threeLines ∅) {[2]}) as Htiers.
    cbv zeta in Htiers. destruct Htiers as (_ & Hmodified & _).
    exact (Hmodified ltac:(evaluate) ltac:(apply elem_of_singleton_2; reflexivity)).
  - pose proof (resolveLineHash_tiers 1 (fingerprint "b") threeLines
                  (rebuildIndex threeLines ∅) ∅) as Htiers.
    cbv zeta in Htiers. destruct Htiers as (_ & _ & Hnearby & _).
    exact (Hnearby ltac:(evaluate) ltac:(apply not_elem_of_empty) 2 ltac:(evaluate)).
  - pose proof (resolveLineHash_tiers 30 (fingerprint "b") threeLines
                  (rebuildIndex threeLines ∅) ∅) as Htiers.
    cbv zeta in Htiers. destruct Htiers as (_ & _ & _ & Hglobal & _).
    exact (Hglobal ltac:(evaluate) ltac:(apply not_elem_of_empty) ltac:(evaluate)
             2 ltac:(evaluate)).
  - pose proof (resolveLineHash_tiers 1 (fingerprint "other") threeLines
                  (rebuildIndex threeLines ∅) ∅) as Htiers.
    cbv zeta in Htiers. destruct Htiers as (_ & _ & _ & _ & Hnone).
    exact (Hnone ltac:(evaluate) ltac:(apply not_elem_of_empty) ltac:(evaluate)
             ltac:(evaluate)).
Defined.

Lemma resolveLineHash_ambiguous_witness :
  resolveLineHash (mkRef 1 (fingerprint "same")) repeatedLines
    (rebuildIndex repeatedLines ∅) ∅
  = Throw (AmbiguousNearby 1 (fingerprint "same")
             (matchesIn (rebuildIndex repeatedLines ∅)
                (fingerprint "same") 1 4))
  ∧ matchesIn (rebuildIndex repeatedLines ∅) (fingerprint "same") 1 4
    = [2; 3]
  ∧ resolveLineHash (mkRef 40 (fingerprint "same")) repeatedLines
      (rebuildIndex repeatedLines ∅) ∅
    = Throw (AmbiguousGlobal 40 (fingerprint "same")
               (matchesIn (rebuildIndex repeatedLines ∅)
                  (fingerprint "same") 1 4)).
Proof.
  split; [| split; [evaluate |]].
  - pose proof (resolveLineHash_ambiguous 1 (fingerprint "same")
                  repeatedLines (rebuildIndex repeatedLines ∅) ∅) as Hambiguous.
    cbv zeta in Hambiguous.
    destruct (Hambiguous ltac:(evaluate) ltac:(apply not_elem_of_empty))
      as [Hnearby _].
    exact (proj1 (Hnearby ltac:(evaluate))).
  - pose proof (resolveLineHash_ambiguous 40 (fingerprint "same")
                  repeatedLines (rebuildIndex repeatedLines ∅) ∅) as Hambiguous.
    cbv zeta in Hambiguous.
    destruct (Hambiguous ltac:(evaluate) ltac:(apply not_elem_of_empty))
      as [_ Hglobal].
    exact (proj1 (Hglobal ltac:(evaluate) ltac:(evaluate))).
Defined.

Lemma edit_hashline_all_or_nothing_witness :
  (edit_hashline (H := exampleHost) notAborted "notes.txt"
     [replace_line (tokenOf 2 "b") "B"; delete_line "9:ffffff"] minimal notes).2
  = notes
  ∧ ∃ e', edit_hashline (H := exampleHost) notAborted "notes.txt"
            ([replace_line (tokenOf 2 "b") "B"] ++ delete_line "9:ffffff" :: [])
            minimal notes
          = (Throw e', notes).
Proof.
  split.
  - pose proof (edit_hashline_all_or_nothing (H := exampleHost) notAborted
                  "notes.txt"
                  [replace_line (tokenOf 2 "b") "B"; delete_line "9:ffffff"]
                  minimal notes) as Hcall.
    cbv zeta in Hcall. destruct Hcall as (Hfailed & _ & _).
    exact (Hfailed (HashNotFound 9 "ffffff") ltac:(evaluate)).
  - pose proof (edit_hashline_all_or_nothing (H := exampleHost) notAborted
                  "notes.txt"
                  ([replace_line (tokenOf 2 "b") "B"] ++ delete_line "9:ffffff" :: [])
                  minimal notes) as Hcall.
    cbv zeta in Hcall. destruct Hcall as (_ & Hoperation & _).
    exact (Hoperation (fileOf threeLines) [replace_line (tokenOf 2 "b") "B"] []
             (delete_line "9:ffffff")
             (afterEdits (fileOf threeLines) [replace_line (tokenOf 2 "b") "B"])
             (HashNotFound 9 "ffffff")
             ltac:(evaluate) eq_refl ltac:(evaluate) ltac:(evaluate)).
Defined.

Lemma hash_index_invariant_witness :
  indexCovers
    (afterEdits (fileOf threeLines)
       [replace_line (tokenOf 2 "b") "B"; delete_line (tokenOf 1 "a")]).(lines)
    (afterEdits (fileOf threeLines)
       [replace_line (tokenOf 2 "b") "B"; delete_line (tokenOf 1 "a")]).(hashIndex)
  ∧ indexCovers
      (afterEdits (fileOf threeLines) [insert_after (tokenOf 3 "c") ["d"]]).(lines)
      (afterEdits (fileOf threeLines) [insert_after (tokenOf 3 "c") ["d"]]).(hashIndex).
Proof.
  destruct hash_index_invariant as (_ & Hreached & Hstep & _ & _).
  split.
  - exact (Hreached false (fileOf threeLines)
             [replace_line (tokenOf 2 "b") "B"; delete_line (tokenOf 1 "a")]
             _ ltac:(evaluate)).
  - exact (Hstep (insert_after (tokenOf 3 "c") ["d"])
             (initialState (fileOf threeLines)) _
             (Hreached false (fileOf threeLines) [] _ eq_refl) ltac:(evaluate)).
Defined.

Lemma range_hash_verification_witness :
  ∃ i, applyEdit (replace_range (tokenOf 1 "a") (tokenOf 3 "c") ["x"]) outdatedState
       = Throw (HashMismatch i).
Proof.
  pose proof (range_hash_verification outdatedState (tokenOf 1 "a") (tokenOf 3 "c")
                ["x"] (mkRef 1 (fingerprint "a")) (mkRef 3 (fingerprint "c")) 1 3
                ltac:(evaluate) ltac:(evaluate) ltac:(evaluate) ltac:(evaluate)
                ltac:(split; evaluate) ltac:(split; evaluate)) as Hverify.
  cbv zeta in Hverify. destruct Hverify as (Hreplace & _ & _).
  apply (proj2 Hreplace). exists 2, "b".
  split; [lia |]. split; [apply not_elem_of_empty |].
  split; [reflexivity | evaluate].
Defined.

Lemma shift_after_delete_line_witness :
  ∃ st', applyEdit (delete_line (tokenOf 5 "l5")) (initialState (fileOf nineLines))
         = Ok st'
    ∧ st'.(lines) = delete 4%nat (split (fileOf nineLines))
    ∧ resolveLineHash (mkRef 8 (fingerprint "l8"))
        st'.(lines) st'.(hashIndex) st'.(modifiedLines) = Ok 7.
Proof.
  exact (shift_after_delete_line (fileOf nineLines) (tokenOf 5 "l5") "l5" "l8"
           ltac:(evaluate) ltac:(decide_by_evaluation) ltac:(evaluate)
           ltac:(evaluate) ltac:(evaluate)).
Defined.

Lemma insert_after_splices_witness :
  ∃ st', applyEdit (insert_after (tokenOf 3 "c") ["d"; "e"]) (stateOf threeLines ∅)
         = Ok st'
    ∧ st'.(lines) = ["a"; "b"; "c"; "d"; "e"].
Proof.
  destruct (insert_after_splices (stateOf threeLines ∅) (tokenOf 3 "c") ["d"; "e"]
              (mkRef 3 (fingerprint "c")) 3
              ltac:(evaluate) ltac:(evaluate) ltac:(split; evaluate))
    as (st' & Happly & _ & Hlast).
  exists st'. split; [exact Happly |]. exact (Hlast eq_refl).
Defined.

Lemma uppercase_hash_never_resolves_witness :
  parseLineHash "12:A1B2C3" = Some (mkRef 12 "A1B2C3")
  ∧ (∀ (line : string) (k : Z), generateLineHash line k ≠ "A1B2C3")
  ∧ (∀ (aborted : bool) (buffer : string) (applied : list Edit) (st : EditState),
       applyEdits aborted applied (initialState buffer) = Ok st →
       12 ∉ st.(modifiedLines) →
       resolveLineHash (mkRef 12 "A1B2C3") st.(lines) st.(hashIndex) st.(modifiedLines)
       = Throw (HashNotFound 12 "A1B2C3")).
Proof.
  exact (uppercase_hash_never_resolves ["1"; "2"]%char "A1B2C3"
           ltac:(evaluate) ltac:(evaluate) ltac:(evaluate) ltac:(evaluate)
           ltac:(evaluate)).
Defined.

Lemma read_beyond_end_of_file_witness :
  read_hashline (H := exampleHost) false "notes.txt" offsetPastEnd shortNotes
  = (Throw (OffsetBeyondEndOfFile 3 2), shortNotes)
  ∧ (∃ details,
       read_hashline (H := exampleHost) false "notes.txt" windowPastEnd shortNotes
       = (Ok details, shortNotes))
  ∧ ∃ startLine endLine : Q,
      readWindow 2 windowPastEnd = Ok (startLine, endLine)
      ∧ slice ["first"; "second"] (toIntegerOrInfinity startLine)
          (toIntegerOrInfinity endLine) = [].
Proof.
  destruct read_beyond_end_of_file as [Hall _].
  split.
  - pose proof (Hall exampleHost "notes.txt" (fileOf ["first"; "second"])
                  offsetPastEnd shortNotes
                  ltac:(evaluate) ltac:(evaluate) ltac:(evaluate)) as Hread.
    cbv zeta in Hread. destruct Hread as [Hoffset _].
    exact (Hoffset 3%Q eq_refl eq_refl ltac:(evaluate)).
  - pose proof (Hall exampleHost "notes.txt" (fileOf ["first"; "second"])
                  windowPastEnd shortNotes
                  ltac:(evaluate) ltac:(evaluate) ltac:(evaluate)) as Hread.
    cbv zeta in Hread. destruct Hread as [_ Haround].
    destruct (Haround 50%Q eq_refl ltac:(evaluate))
      as [Hsucceeds (startLine & endLine & selected & Hwindow & -> & _ & Hempty)].
    split; [exact Hsucceeds |].
    exists startLine, endLine.
    split; [exact Hwindow | exact (Hempty ltac:(evaluate) ltac:(evaluate))].
Defined.

(** ** Where shift tolerance stops *)

(** C7, as stated, fails on nine different lines of which the eighth and
    the ninth have the same fingerprint: after line 5 is deleted the index
    has that fingerprint at line 8, for the text that was on line 9, and the
    exact match returns 8. *)
Lemma shift_after_delete_line_collision :
  NoDup (split (fileOf collidingLines))
  ∧ split (fileOf collidingLines) !! 4%nat = Some "l5"
  ∧ split (fileOf collidingLines) !! 7%nat = Some "line 1049"
  ∧ parseLineHash (tokenOf 5 "l5") = Some (mkRef 5 (fingerprint "l5"))
  ∧ applyEdit (delete_line (tokenOf 5 "l5")) (initialState (fileOf collidingLines))
    = Ok (afterEdits (fileOf collidingLines) [delete_line (tokenOf 5 "l5")])
  ∧ (afterEdits (fileOf collidingLines) [delete_line (tokenOf 5 "l5")]).(lines)
    = delete 4%nat (split (fileOf collidingLines))
  ∧ resolveLineHash (mkRef 8 (fingerprint "line 1049"))
      (afterEdits (fileOf collidingLines) [delete_line (tokenOf 5 "l5")]).(lines)
      (afterEdits (fileOf collidingLines) [delete_line (tokenOf 5 "l5")]).(hashIndex)
      (afterEdits (fileOf collidingLines) [delete_line (tokenOf 5 "l5")]).(modifiedLines)
    = Ok 8
  ∧ resolveLineHash (mkRef 8 (fingerprint "line 1049"))
      (afterEdits (fileOf collidingLines) [delete_line (tokenOf 5 "l5")]).(lines)
      (afterEdits (fileOf collidingLines) [delete_line (tokenOf 5 "l5")]).(hashIndex)
      (afterEdits (fileOf collidingLines) [delete_line (tokenOf 5 "l5")]).(modifiedLines)
    ≠ Ok 7.
Proof.
  split; [decide_by_evaluation |]. evaluate_each.
Qed.

(** The index is written over, never emptied: after a deletion the entry
    of the old last line number stays. In a file of eight lines, once
    line 5 is deleted, the reference to the original line 8 is an exact
    match on that entry and resolves to 8, a line the buffer no longer
    has, and an operation through it is refused as out of range. *)
Example entry_left_after_delete :
  (afterEdits (fileOf eightLines) [delete_line (tokenOf 5 "l5")]).(lines)
  = ["l1"; "l2"; "l3"; "l4"; "l6"; "l7"; "l8"]
  ∧ (afterEdits (fileOf eightLines) [delete_line (tokenOf 5 "l5")]).(hashIndex) !! 8
    = Some (fingerprint "l8")
  ∧ resolveLineHash (mkRef 8 (fingerprint "l8"))
      (afterEdits (fileOf eightLines) [delete_line (tokenOf 5 "l5")]).(lines)
      (afterEdits (fileOf eightLines) [delete_line (tokenOf 5 "l5")]).(hashIndex)
      (afterEdits (fileOf eightLines) [delete_line (tokenOf 5 "l5")]).(modifiedLines)
    = Ok 8
  ∧ applyEdit (replace_line (tokenOf 8 "l8") "new")
      (afterEdits (fileOf eightLines) [delete_line (tokenOf 5 "l5")])
    = Throw (LineOutOfRange 7).
Proof. evaluate_each. Qed.

(** The atomicity scenario of the specification: a valid operation, then
    one whose reference resolves nowhere; the call fails and the file is
    as before. *)
Example atomicity_scenario :
  edit_hashline (H := exampleHost) notAborted "notes.txt"
    [replace_line (tokenOf 2 "b") "B"; delete_line "9:ffffff"] minimal notes
  = (Throw (HashNotFound 9 "ffffff"), notes).
Proof. vm_compute. reflexivity. Qed.

(** The same call without the failing operation writes the file. *)
Example successful_edit_writes :
  (edit_hashline (H := exampleHost) notAborted "notes.txt"
     [replace_line (tokenOf 2 "b") "B"] minimal notes).2 !! "notes.txt"
  = Some (fileOf ["a"; "B"; "c"]).
Proof. vm_compute. reflexivity. Qed.

(** What the read tool shows. *)
Example read_whole_file :
  (read_hashline (H := exampleHost) false "notes.txt"
     {| offset := None; limit := None; aroundLine := None; radius := None |}
     notes).1
  = Ok {| text := fileOf ["1:0cc175|a"; "2:92eb5f|b"; "3:4a8a08|c"];
          totalLinesInFile := 3; linesRead := 3 |}.
Proof. vm_compute. reflexivity. Qed.

(** ** Where the offset check stops

    The check compares the offset less one with the number of lines, and
    the offset is not rounded: an offset between the number of lines and
    the number after it is greater than the number of lines and is read
    from the last line. *)
Lemma offset_between_last_lines :
  Z.of_nat (length (split (fileOf ["first"; "second"]))) = 2
  ∧ offsetBetweenLines.(aroundLine) = None
  ∧ offsetBetweenLines.(offset) = Some (5 # 2)
  ∧ (inject_Z 2 < 5 # 2)%Q
  ∧ read_hashline (H := exampleHost) false "notes.txt" offsetBetweenLines shortNotes
    = (Ok {| text := "2.5:" +:+ fingerprint "second" +:+ "|second";
             totalLinesInFile := 2; linesRead := 1 |},
       shortNotes).
Proof. evaluate_each. Qed.

(** * Further properties of the code *)

(** ** Lines of a file *)

Lemma join_cons (line : string) (ls : list string) :
  ls ≠ [] → join (line :: ls) = line +:+ String newline (join ls).
Proof. by destruct ls. Qed.

Lemma splitFirst_join (s line : string) (rest : list string) :
  splitFirst s = (line, rest) → join (line :: rest) = s.
Proof.
  revert line rest. induction s as [|c s IH]; intros line rest; cbn [splitFirst].
  - by intros [= <- <-].
  - destruct (splitFirst s) as [line' rest']. specialize (IH _ _ eq_refl).
    case_decide as Hc.
    + intros [= <- <-]. rewrite join_cons by done. rewrite IH, Hc. done.
    + intros [= <- <-]. destruct rest' as [|r rest'].
      * cbn [join] in *. by rewrite IH.
      * rewrite join_cons by done. rewrite join_cons in IH by done.
        rewrite <- IH. reflexivity.
Qed.

Lemma splitFirst_no_newline (s : string) :
  hasNewline (splitFirst s).1 = false
  ∧ Forall (λ line, hasNewline line = false) (splitFirst s).2.
Proof.
  induction s as [|c s [IHfirst IHrest]]; simpl; [by split |].
  destruct (splitFirst s) as [line rest]. simpl in *. case_decide as Hc.
  - split; [done | by constructor].
  - split; [| done]. unfold hasNewline in *. simpl.
    by rewrite IHfirst, bool_decide_eq_false_2.
Qed.


(** X1. Splitting a file into lines loses nothing: there is always at
    least one line, no line holds a line break, and joining the lines gives
    the file back, byte for byte. *)
Theorem join_split (s : string) :
  join (split s) = s
  ∧ split s ≠ []
  ∧ Forall (λ line, hasNewline line = false) (split s).
Proof.
  unfold split. pose proof (splitFirst_join s) as Hjoin.
  pose proof (splitFirst_no_newline s) as [Hfirst Hrest].
  destruct (splitFirst s) as [line rest]. simpl in *.
  split; [by apply Hjoin | split; [done | by constructor]].
Qed.

Lemma splitFirst_line (line t : string) :
  hasNewline line = false →
  splitFirst (line +:+ String newline t)
  = (line, (splitFirst t).1 :: (splitFirst t).2).
Proof.
  induction line as [|c line IH]; simpl.
  - intros _. by destruct (splitFirst t) as [l r].
  - unfold hasNewline. simpl. intros [Hc Hline]%orb_false_elim.
    apply bool_decide_eq_false_1 in Hc.
    rewrite IH by done. by rewrite decide_False.
Qed.

Lemma splitFirst_last (line : string) :
  hasNewline line = false → splitFirst line = (line, []).
Proof.
  induction line as [|c line IH]; simpl; [done |].
  unfold hasNewline. simpl. intros [Hc Hline]%orb_false_elim.
  apply bool_decide_eq_false_1 in Hc.
  rewrite IH by done. by rewrite decide_False.
Qed.

(** X2. Joining lines and splitting again gives the same lines, provided
    there is at least one line and none of them holds a line break. *)
Theorem split_join (ls : list string) :
  ls ≠ [] →
  Forall (λ line, hasNewline line = false) ls →
  split (join ls) = ls.
Proof.
  intros Hne Hlines. unfold split.
  induction Hlines as [|line ls Hline Hlines IH]; [done |].
  destruct ls as [|next ls].
  - simpl. by rewrite splitFirst_last.
  - rewrite join_cons by done. rewrite splitFirst_line by done.
    specialize (IH ltac:(done)).
    destruct (splitFirst (join (next :: ls))) as [l r]. simpl.
    by injection IH as -> ->.
Qed.

Lemma split_join_witness :
  split (join ["a"; ""; "b"]) = ["a"; ""; "b"].
Proof.
  exact (split_join ["a"; ""; "b"] ltac:(evaluate) ltac:(decide_by_evaluation)).
Defined.

(** ** Tokens *)

Lemma parseInt_snoc (digits : list ascii) (c : ascii) :
  parseInt (digits ++ [c]) = 10 * parseInt digits + (code c - 48).
Proof. unfold parseInt. by rewrite fold_left_app. Qed.

Lemma pretty_N_char_digit (k : N) :
  (k < 10)%N →
  isDigit (pretty_N_char k) = true ∧ code (pretty_N_char k) - 48 = Z.of_N k.
Proof.
  intros Hk.
  assert (k = 0 ∨ k = 1 ∨ k = 2 ∨ k = 3 ∨ k = 4 ∨ k = 5 ∨ k = 6 ∨ k = 7
          ∨ k = 8 ∨ k = 9)%N as Hcases by lia.
  repeat (destruct Hcases as [-> | Hcases]; [by split |]). by subst.
Qed.

Lemma string_of_list_ascii_snoc (l : list ascii) (c : ascii) (s : string) :
  string_of_list_ascii (l ++ [c]) +:+ s = string_of_list_ascii l +:+ String c s.
Proof.
  induction l as [|a l IH]; [done |]. exact (f_equal (String a) IH).
Qed.

(** The printer of natural numbers puts the decimal digits of the number in
    front of what it is given. *)
Lemma pretty_N_go_digits (x : N) :
  ∃ digits : list ascii,
    forallb isDigit digits = true
    ∧ parseInt digits = Z.of_N x
    ∧ ((0 < x)%N → digits ≠ [])
    ∧ ∀ s, pretty_N_go x s = string_of_list_ascii digits +:+ s.
Proof.
  induction (N.lt_wf_0 x) as [x _ IH].
  destruct (decide (x = 0%N)) as [-> | Hpos].
  - exists []. repeat split; try done; lia.
  - destruct (IH (x `div` 10)%N) as (digits & Hdigits & Hvalue & _ & Hprint).
    { apply N.div_lt; lia. }
    destruct (pretty_N_char_digit (x `mod` 10)%N) as [Hchar Hcode].
    { apply N.mod_lt. lia. }
    exists (digits ++ [pretty_N_char (x `mod` 10)]). split; [| split; [| split]].
    + rewrite forallb_app, Hdigits. simpl. by rewrite Hchar.
    + rewrite parseInt_snoc, Hvalue, Hcode.
      pose proof (N.div_mod x 10 ltac:(lia)). lia.
    + intros _. by destruct digits.
    + intros s. rewrite pretty_N_go_step by lia.
      by rewrite Hprint, string_of_list_ascii_snoc.
Qed.

(** A number that is not negative prints as its decimal digits. *)
Lemma pretty_digits (n : Z) :
  0 ≤ n →
  ∃ digits : list ascii,
    digits ≠ [] ∧ forallb isDigit digits = true ∧ parseInt digits = n
    ∧ pretty n = string_of_list_ascii digits.
Proof.
  intros Hn. destruct n as [|p|p]; [| | lia].
  - by exists ["0"%char].
  - destruct (pretty_N_go_digits (N.pos p)) as (digits & Hdigits & Hvalue & Hne & Hprint).
    exists digits. split; [apply Hne; lia |]. split; [done |]. split; [done |].
    unfold pretty, pretty_Z, pretty, pretty_positive, pretty, pretty_N.
    rewrite decide_False by done. rewrite Hprint.
    clear. induction digits as [|c digits IH]; [done |].
    exact (f_equal (String c) IH).
Qed.

Lemma lower_hex_is_hex (l : list ascii) :
  forallb isLowerHex l = true → forallb isHexIgnoreCase l = true.
Proof.
  induction l as [|c l IH]; [done |]. simpl. intros [Hc Hl]%andb_prop.
  rewrite IH by done. unfold isLowerHex in Hc. unfold isHexIgnoreCase.
  apply orb_prop in Hc as [-> | ->]; [done |]. by rewrite orb_true_r.
Qed.

Lemma parse_printed_token (n : Z) (h : string) :
  0 ≤ n → isFingerprint h = true →
  parseLineHash (pretty n +:+ ":" +:+ h) = Some (mkRef n h).
Proof.
  intros Hn Hfp. destruct (pretty_digits n Hn) as (digits & Hne & Hdigits & Hvalue & ->).
  unfold isFingerprint in Hfp. apply andb_prop in Hfp as [Hlen Hhex].
  change (":" +:+ h) with (String ":" h).
  unfold parseLineHash. rewrite spanDigits_run by done.
  destruct digits as [|d ds]; [done |].
  by rewrite Hlen, (lower_hex_is_hex _ Hhex), Hvalue.
Qed.

(** X3. A whole line number with the fingerprint of a text makes a token
    the parser of the edit tool accepts and reads back: for every whole
    number from 0 to 2^53 and every text, the token [<number>:<fingerprint>]
    parses to that number and that fingerprint. This is the token the read
    tool prints in front of a line when its window starts at a whole
    number. *)
Theorem token_parses (n : Z) (line : string) :
  0 ≤ n ≤ MAX_EXACT →
  parseLineHash (pretty n +:+ ":" +:+ generateLineHash line n)
  = Some (mkRef n (generateLineHash line n)).
Proof.
  intros [Hn _]. apply parse_printed_token; [done |].
  apply generateLineHash_fingerprint.
Qed.

Lemma token_parses_witness :
  parseLineHash (pretty 120 +:+ ":" +:+ generateLineHash "x" 120)
  = Some (mkRef 120 (generateLineHash "x" 120)).
Proof. exact (token_parses 120 "x" ltac:(evaluate_each)). Defined.

Lemma spanDigits_spec (s : string) :
  forallb isDigit (spanDigits s).1 = true
  ∧ s = string_of_list_ascii (spanDigits s).1 +:+ (spanDigits s).2.
Proof.
  induction s as [|c s [IHdigits IHrest]]; simpl; [done |].
  destruct (isDigit c) eqn:Hc; [| done].
  destruct (spanDigits s) as [ds rest]. simpl in *.
  split; [by rewrite Hc, IHdigits | exact (f_equal (String c) IHrest)].
Qed.

Lemma parseInt_nonneg (digits : list ascii) :
  forallb isDigit digits = true → 0 ≤ parseInt digits.
Proof.
  induction digits as [|c digits IH] using rev_ind; [done |].
  rewrite forallb_app, parseInt_snoc. simpl.
  intros [Hds [Hc _]%andb_prop]%andb_prop.
  specialize (IH Hds). unfold isDigit in Hc. lia.
Qed.

(** X4. The parser accepts exactly the tokens made of a run of decimal
    digits, a colon and six hexadecimal digits in either case, with nothing
    before or after; the hash is the six characters as written and the line
    number, never negative, is the value of the digits. This is said of
    tokens whose leading digits have a value of at most 2^53, up to which
    the number the source reads is that value. *)
Theorem parseLineHash_accepts (token : string) (ref : LineRef) :
  parseInt (spanDigits token).1 ≤ MAX_EXACT →
  parseLineHash token = Some ref
  ↔ ∃ digits : list ascii,
      digits ≠ [] ∧ forallb isDigit digits = true
      ∧ token = string_of_list_ascii digits +:+ String ":" ref.(hash)
      ∧ String.length ref.(hash) = 6%nat
      ∧ forallb isHexIgnoreCase (list_ascii_of_string ref.(hash)) = true
      ∧ ref.(lineNumber) = parseInt digits
      ∧ 0 ≤ ref.(lineNumber).
Proof.
  intros _. split.
  - unfold parseLineHash. destruct (spanDigits_spec token) as [Hdigits Htoken].
    destruct (spanDigits token) as [[|d ds] rest]; [done |]. simpl in *.
    destruct rest as [|c rest]; [done |].
    destruct (decide (c = ":"%char)) as [-> | Hc];
      [| by repeat (case_match; try done)].
    destruct (String.length rest =? 6)%nat eqn:Hlen; [| by repeat case_match].
    destruct (forallb isHexIgnoreCase (list_ascii_of_string rest)) eqn:Hhex;
      [| by repeat case_match].
    intros [= <-]. exists (d :: ds). simpl.
    apply Nat.eqb_eq in Hlen.
    repeat split; try done. by apply (parseInt_nonneg (d :: ds)).
  - intros (digits & Hne & Hdigits & -> & Hlen & Hhex & Hvalue & _).
    unfold parseLineHash. rewrite spanDigits_run by done.
    destruct digits as [|d ds]; [done |]. rewrite Hlen, Hhex. simpl.
    destruct ref as [n h]. simpl in *. by rewrite Hvalue.
Qed.

Lemma parseLineHash_accepts_witness :
  ∃ digits : list ascii,
    digits ≠ [] ∧ forallb isDigit digits = true
    ∧ "007:00ff1A" = string_of_list_ascii digits +:+ String ":" "00ff1A"
    ∧ String.length "00ff1A" = 6%nat
    ∧ forallb isHexIgnoreCase (list_ascii_of_string "00ff1A") = true
    ∧ 7 = parseInt digits
    ∧ 0 ≤ 7.
Proof.
  exact (proj1 (parseLineHash_accepts "007:00ff1A" (mkRef 7 "00ff1A")
                  ltac:(evaluate))
           ltac:(evaluate)).
Defined.

(** ** References into the current buffer *)

(** X5. In every state an edit call reaches, a reference that names a
    line by its current number and the fingerprint of its current text
    resolves to that line, also when other lines have the same text and
    whatever the modified set holds. *)
Theorem current_reference_resolves (aborted : bool) (buffer : string)
    (applied : list Edit) (st : EditState) (i : nat) (line : string) :
  applyEdits aborted applied (initialState buffer) = Ok st →
  st.(lines) !! i = Some line →
  resolveLineHash (mkRef (Z.of_nat i + 1) (generateLineHash line (Z.of_nat i + 1)))
    st.(lines) st.(hashIndex) st.(modifiedLines)
  = Ok (Z.of_nat i + 1).
Proof.
  intros Hrun Hline.
  assert (indexCovers st.(lines) st.(hashIndex)) as Hcovers.
  { eapply applyEdits_covers; [| exact Hrun]. apply rebuildIndex_covers. }
  unfold resolveLineHash. cbn [lineNumber hash].
  rewrite decide_True; [done | by apply Hcovers].
Qed.

Lemma current_reference_resolves_witness :
  resolveLineHash (mkRef (Z.of_nat 0 + 1) (generateLineHash "same" (Z.of_nat 0 + 1)))
    (afterEdits (fileOf repeatedLines) [delete_line (tokenOf 1 "x")]).(lines)
    (afterEdits (fileOf repeatedLines) [delete_line (tokenOf 1 "x")]).(hashIndex)
    (afterEdits (fileOf repeatedLines) [delete_line (tokenOf 1 "x")]).(modifiedLines)
  = Ok (Z.of_nat 0 + 1).
Proof.
  exact (current_reference_resolves false (fileOf repeatedLines)
           [delete_line (tokenOf 1 "x")]
           (afterEdits (fileOf repeatedLines) [delete_line (tokenOf 1 "x")])
           0%nat "same" ltac:(evaluate) ltac:(evaluate)).
Defined.

Lemma append_assoc (a b c : string) : (a +:+ b) +:+ c = a +:+ (b +:+ c).
Proof. induction a as [|x a IH]; [done |]. exact (f_equal (String x) IH). Qed.

(** X6. Reading and then editing fit together. For every line of a file,
    the read tool prints it as [<token>|<text>], where the token is the
    line's number and fingerprint, and [replace_line] with that token, as
    the first operation of an edit call on the same file, goes through and
    puts the new text on that very line, with the index entry of the line
    set to the fingerprint of the new text. *)
Theorem read_then_replace `{Host} (data newText : string) (k : nat)
    (line : string) :
  split data !! k = Some line →
  let n := Z.of_nat k + 1 in
  let token := pretty n +:+ ":" +:+ generateLineHash line n in
  hashlineLines 0 (split data) !! k = Some (token +:+ "|" +:+ line)
  ∧ ∃ st', applyEdit (replace_line token newText) (initialState data) = Ok st'
      ∧ st'.(lines) = <[k := newText]> (split data)
      ∧ st'.(hashIndex) !! n = Some (generateLineHash newText n).
Proof.
  intros Hline n token. split.
  - unfold hashlineLines. rewrite list_lookup_imap, Hline. simpl.
    rewrite (numberToString_whole _ n)
      by (subst n; rewrite inject_Z_plus; change (inject_Z 1) with 1%Q; lra).
    subst token. by rewrite !append_assoc.
  - cbn [applyEdit]. unfold parseOrThrow. subst token.
    rewrite parse_printed_token
      by (lia || apply generateLineHash_fingerprint).
    cbn [mbind result_bind].
    assert (resolveInRange (initialState data) (mkRef n (generateLineHash line n))
            = Ok n) as ->.
    { apply resolveInRange_Ok. cbn [lines hashIndex modifiedLines initialState].
      apply lookup_lt_Some in Hline as Hk. split; [| lia].
      unfold resolveLineHash. cbn [lineNumber hash].
      rewrite decide_True; [done |]. by apply rebuildIndex_covers. }
    cbn [mbind result_bind]. eexists. split; [reflexivity |].
    cbn [lines hashIndex initialState]. split.
    + f_equal. lia.
    + apply lookup_insert_eq.
Qed.

Lemma read_then_replace_witness :
  hashlineLines (H := exampleHost) 0 (split (fileOf threeLines)) !! 1%nat
  = Some ((pretty (Z.of_nat 1 + 1) +:+ ":" +:+ generateLineHash "b" (Z.of_nat 1 + 1))
          +:+ "|" +:+ "b")
  ∧ ∃ st', applyEdit
             (replace_line
                (pretty (Z.of_nat 1 + 1) +:+ ":" +:+ generateLineHash "b" (Z.of_nat 1 + 1))
                "B")
             (initialState (fileOf threeLines)) = Ok st'
      ∧ st'.(lines) = <[1%nat := "B"]> (split (fileOf threeLines))
      ∧ st'.(hashIndex) !! (Z.of_nat 1 + 1)
        = Some (generateLineHash "B" (Z.of_nat 1 + 1)).
Proof.
  exact (read_then_replace (H := exampleHost) (fileOf threeLines) "B" 1 "b"
           ltac:(evaluate)).
Defined.

(** X7. Where a resolved reference points. When resolution succeeds for a
    line number outside the modified set, the index has the referenced
    hash at the resolved line, and the resolved line is the stated one or
    lies within the buffer. With an index that covers the buffer, a
    resolved line within the buffer holds a text with the referenced
    fingerprint: resolution never lands on a line of another fingerprint. *)
Theorem resolveLineHash_sound (n : Z) (h : string) (lines : list string)
    (hashIndex : gmap Z string) (modifiedLines : gset Z) (c : Z) :
  resolveLineHash (mkRef n h) lines hashIndex modifiedLines = Ok c →
  n ∉ modifiedLines →
  hashIndex !! c = Some h
  ∧ (c = n ∨ 1 ≤ c ≤ Z.of_nat (length lines))
  ∧ (indexCovers lines hashIndex → 1 ≤ c ≤ Z.of_nat (length lines) →
     ∃ line, lines !! Z.to_nat (c - 1) = Some line ∧ generateLineHash line c = h).
Proof.
  intros Hresolve Hmod.
  assert (hashIndex !! c = Some h ∧ (c = n ∨ 1 ≤ c ≤ Z.of_nat (length lines)))
    as [Hentry Hwhere].
  { revert Hresolve. unfold resolveLineHash. cbn [lineNumber hash].
    case_decide as Hexact; [intros [= <-]; split; [done | by left] |].
    rewrite decide_False by done. rewrite !candidatesBetween_matchesIn.
    unfold nearbyRange.
    destruct (matchesIn hashIndex h (Z.max 1 (n - 10)) _) as [|x [|y l]] eqn:Hnear.
    - destruct (matchesIn hashIndex h 1 _) as [|x [|y l]] eqn:Hglobal; try done.
      intros [= <-].
      assert (x ∈ matchesIn hashIndex h 1 (Z.of_nat (length lines))) as Hx
        by (rewrite Hglobal; by left).
      apply elem_of_matchesIn in Hx as [Hx Hhit]. split; [done | by right].
    - intros [= <-].
      assert (x ∈ matchesIn hashIndex h (Z.max 1 (n - 10))
                    (Z.min (Z.of_nat (length lines)) (n + 10))) as Hx
        by (rewrite Hnear; by left).
      apply elem_of_matchesIn in Hx as [Hx Hhit]. split; [done | right; lia].
    - done. }
  split; [done | split; [done |]].
  intros Hcovers Hrange.
  destruct (lookup_lt_is_Some_2 lines (Z.to_nat (c - 1))) as [line Hline]; [lia |].
  exists line. split; [done |].
  pose proof (Hcovers _ _ Hline) as Hcov.
  replace (Z.of_nat (Z.to_nat (c - 1)) + 1) with c in Hcov by lia.
  congruence.
Qed.

Lemma resolveLineHash_sound_witness :
  rebuildIndex threeLines ∅ !! 2 = Some (fingerprint "b")
  ∧ (2 = 1 ∨ 1 ≤ 2 ≤ Z.of_nat (length threeLines))
  ∧ (indexCovers threeLines (rebuildIndex threeLines ∅) →
     1 ≤ 2 ≤ Z.of_nat (length threeLines) →
     ∃ line, threeLines !! Z.to_nat (2 - 1) = Some line
             ∧ generateLineHash line 2 = fingerprint "b").
Proof.
  pose proof (resolveLineHash_sound 1 (fingerprint "b") threeLines
                (rebuildIndex threeLines ∅) ∅ 2) as Hsound.
  exact (Hsound ltac:(evaluate) ltac:(apply not_elem_of_empty)).
Defined.

(** X8. After [replace_line] the replaced line answers to its number.
    The operation changes the text of one line and of no other, keeps the
    number of lines, and from then on every reference that names that line
    number resolves to it, whatever hash the reference carries: the hash
    read before the replacement, the hash of the new text, or any other. *)
Theorem replaced_line_answers_to_its_number (lineHash newText : string)
    (st st' : EditState) :
  applyEdit (replace_line lineHash newText) st = Ok st' →
  ∃ n, 1 ≤ n ≤ Z.of_nat (length st.(lines))
    ∧ length st'.(lines) = length st.(lines)
    ∧ st'.(lines) !! Z.to_nat (n - 1) = Some newText
    ∧ (∀ j, j ≠ Z.to_nat (n - 1) → st'.(lines) !! j = st.(lines) !! j)
    ∧ ∀ h, resolveLineHash (mkRef n h)
             st'.(lines) st'.(hashIndex) st'.(modifiedLines) = Ok n.
Proof.
  intros Happly.
  destruct (replace_line_Ok st st' lineHash newText Happly)
    as (n & Hn & Hlines & Hindex & Hmodified).
  exists n. rewrite Hlines, Hmodified.
  split; [done |]. split; [apply length_insert |].
  split; [apply list_lookup_insert_eq; lia |].
  split; [intros j Hj; by apply list_lookup_insert_ne |].
  intros h. unfold resolveLineHash. cbn [lineNumber hash].
  case_decide; [done |]. rewrite decide_True; [done |].
  apply elem_of_union. left. by apply elem_of_singleton.
Qed.

Lemma replaced_line_answers_to_its_number_witness :
  ∃ n, 1 ≤ n ≤ Z.of_nat (length (initialState (fileOf threeLines)).(lines))
    ∧ length (afterEdits (fileOf threeLines) [replace_line (tokenOf 2 "b") "B"]).(lines)
      = length (initialState (fileOf threeLines)).(lines)
    ∧ (afterEdits (fileOf threeLines) [replace_line (tokenOf 2 "b") "B"]).(lines)
        !! Z.to_nat (n - 1) = Some "B"
    ∧ (∀ j, j ≠ Z.to_nat (n - 1) →
         (afterEdits (fileOf threeLines) [replace_line (tokenOf 2 "b") "B"]).(lines) !! j
         = (initialState (fileOf threeLines)).(lines) !! j)
    ∧ ∀ h, resolveLineHash (mkRef n h)
             (afterEdits (fileOf threeLines) [replace_line (tokenOf 2 "b") "B"]).(lines)
             (afterEdits (fileOf threeLines) [replace_line (tokenOf 2 "b") "B"]).(hashIndex)
             (afterEdits (fileOf threeLines) [replace_line (tokenOf 2 "b") "B"]).(modifiedLines)
           = Ok n.
Proof.
  exact (replaced_line_answers_to_its_number (tokenOf 2 "b") "B"
           (initialState (fileOf threeLines))
           (afterEdits (fileOf threeLines) [replace_line (tokenOf 2 "b") "B"])
           ltac:(evaluate)).
Defined.

(** ** Range operations *)

Lemma resolveRange_Ok (st : EditState) (startRef endRef : LineRef) (s e : Z) :
  resolveRange st startRef endRef = Ok (s, e) →
  1 ≤ s ∧ s ≤ e ∧ e ≤ Z.of_nat (length st.(lines))
  ∧ verifyRange st s e = Ok tt.
Proof.
  unfold resolveRange.
  intros (s' & _ & (e' & _ & Hchecks)%bind_Ok)%bind_Ok.
  destruct (s' <? 1) eqn:H1; [done |].
  destruct (Z.of_nat (length (lines st)) <? s') eqn:H2; [done |].
  destruct (e' <? s') eqn:H3; [done |].
  destruct (Z.of_nat (length (lines st)) <? e') eqn:H4; [done |].
  simpl in Hchecks. apply bind_Ok in Hchecks as ([] & Hverify & [= <- <-]).
  repeat split; try done; lia.
Qed.

(** ** What a rebuild leaves behind *)

(** X10. The index is written over after a deletion, not emptied, so the
    entry of the old last line number survives. With an index that covers
    a buffer of [len] lines, after any successful [delete_line] the index
    still has the fingerprint of the old last line at key [len]; a
    reference to that line by its old number is therefore an exact match,
    resolves to [len], one past the end of the new buffer, and every
    single-line operation through it is refused as out of range, although
    the text may still be in the buffer one line up. *)
Theorem entry_of_last_line_survives_delete (st st' : EditState)
    (lineHash lastHash lastLine newText : string) (newLines : list string) :
  indexCovers st.(lines) st.(hashIndex) →
  last st.(lines) = Some lastLine →
  applyEdit (delete_line lineHash) st = Ok st' →
  parseLineHash lastHash
  = Some (mkRef (Z.of_nat (length st.(lines))) (fingerprint lastLine)) →
  let len := Z.of_nat (length st.(lines)) in
  Z.of_nat (length st'.(lines)) = len - 1
  ∧ st'.(hashIndex) !! len = Some (fingerprint lastLine)
  ∧ resolveLineHash (mkRef len (fingerprint lastLine))
      st'.(lines) st'.(hashIndex) st'.(modifiedLines) = Ok len
  ∧ applyEdit (replace_line lastHash newText) st' = Throw (LineOutOfRange (len - 1))
  ∧ applyEdit (insert_after lastHash newLines) st' = Throw (LineOutOfRange (len - 1))
  ∧ applyEdit (delete_line lastHash) st' = Throw (LineOutOfRange (len - 1)).
Proof.
  intros Hcovers Hlast Happly Hparse len.
  pose proof Happly as Hshape. cbn [applyEdit] in Hshape.
  apply bind_Ok in Hshape as (ref & _ & (n & [_ Hn]%resolveInRange_Ok & [= Hst'])%bind_Ok).
  assert (st'.(lines) = take (Z.to_nat (n - 1)) st.(lines)
                        ++ drop (Z.to_nat (n - 1) + 1) st.(lines)) as Hlines
    by (by rewrite <- Hst').
  assert (Z.of_nat (length st'.(lines)) = len - 1) as Hlen.
  { rewrite Hlines, length_app, length_take, length_drop. subst len. lia. }
  destruct (restructuring_Ok (delete_line lineHash) st st') as [Hindex Hmodified];
    [done | done |].
  assert (st'.(hashIndex) !! len = Some (fingerprint lastLine)) as Hentry.
  { rewrite Hindex, rebuildIndex_keeps by lia.
    rewrite last_lookup in Hlast.
    pose proof (Hcovers _ _ Hlast) as Hcov.
    by replace (Z.of_nat (pred (length (lines st))) + 1) with len in Hcov
      by (subst len; lia). }
  assert (resolveLineHash (mkRef len (fingerprint lastLine))
            st'.(lines) st'.(hashIndex) st'.(modifiedLines) = Ok len) as Hresolve.
  { unfold resolveLineHash. cbn [lineNumber hash]. by rewrite decide_True. }
  assert (resolveInRange st' (mkRef len (fingerprint lastLine))
          = Throw (LineOutOfRange (len - 1))) as Hrefused.
  { unfold resolveInRange. rewrite Hresolve. cbn [mbind result_bind].
    replace (Z.of_nat (length (lines st')) <? len) with true by lia.
    by rewrite orb_true_r, Hlen. }
  split; [done |]. split; [done |]. split; [done |].
  cbn [applyEdit]. unfold parseOrThrow. fold len in Hparse. rewrite Hparse.
  cbn [mbind result_bind]. by rewrite Hrefused.
Qed.

Lemma entry_of_last_line_survives_delete_witness :
  (afterEdits (fileOf eightLines) [delete_line (tokenOf 5 "l5")]).(hashIndex)
    !! Z.of_nat (length (initialState (fileOf eightLines)).(lines))
  = Some (fingerprint "l8")
  ∧ applyEdit (replace_line (tokenOf 8 "l8") "new")
      (afterEdits (fileOf eightLines) [delete_line (tokenOf 5 "l5")])
    = Throw (LineOutOfRange
               (Z.of_nat (length (initialState (fileOf eightLines)).(lines)) - 1)).
Proof.
  pose proof (entry_of_last_line_survives_delete
                (initialState (fileOf eightLines))
                (afterEdits (fileOf eightLines) [delete_line (tokenOf 5 "l5")])
                (tokenOf 5 "l5") (tokenOf 8 "l8") "l8" "new" []
                (rebuildIndex_covers _ _)
                ltac:(evaluate) ltac:(evaluate) ltac:(evaluate)) as Hkept.
  cbv zeta in Hkept. destruct Hkept as (_ & Hentry & _ & Hreplace & _).
  split; [exact Hentry | exact Hreplace].
Defined.

(** ** The staleness check inside a call *)

Lemma covered_range_verifies (lines : list string) (hashIndex : gmap Z string)
    (modifiedLines : gset Z) (fuel : nat) (i : Z) :
  indexCovers lines hashIndex →
  1 ≤ i → i + Z.of_nat fuel - 1 ≤ Z.of_nat (length lines) →
  verifyFrom lines hashIndex modifiedLines fuel i = Ok tt.
Proof.
  intros Hcovers Hlo Hhi.
  destruct (verifyFrom_cases lines hashIndex modifiedLines fuel i)
    as [[Hok _] | (k & Hk & [_ Hstale] & _)]; [done |].
  destruct (lookup_lt_is_Some_2 lines (Z.to_nat (k - 1))) as [line Hline]; [lia |].
  exfalso. apply Hstale. rewrite Hline. simpl.
  pose proof (Hcovers _ _ Hline) as Hcov.
  by replace (Z.of_nat (Z.to_nat (k - 1)) + 1) with k in Hcov by lia.
Qed.

Lemma resolveLineHash_no_mismatch (ref : LineRef) (lines : list string)
    (hashIndex : gmap Z string) (modifiedLines : gset Z) (i : Z) :
  resolveLineHash ref lines hashIndex modifiedLines ≠ Throw (HashMismatch i).
Proof.
  unfold resolveLineHash. repeat case_decide; try done.
  destruct (candidatesBetween _ _ _ _) as [|x [|y l]]; try done.
  by destruct (candidatesBetween _ _ _ _) as [|x [|y l]].
Qed.

Lemma applyEdit_no_mismatch (edit : Edit) (st : EditState) (i : Z) :
  indexCovers st.(lines) st.(hashIndex) →
  applyEdit edit st ≠ Throw (HashMismatch i).
Proof.
  intros Hcovers.
  assert (∀ ref, resolveInRange st ref ≠ Throw (HashMismatch i)) as Hsingle.
  { intros ref. unfold resolveInRange.
    intros [Hres | (n & _ & Hcheck)]%bind_Throw.
    - by apply resolveLineHash_no_mismatch in Hres.
    - by destruct (_ || _). }
  assert (∀ r1 r2, resolveRange st r1 r2 ≠ Throw (HashMismatch i)) as Hrange.
  { intros r1 r2. unfold resolveRange.
    intros [Hres | (s & _ & [Hres | (e & _ & Hcheck)]%bind_Throw)]%bind_Throw.
    - by apply resolveLineHash_no_mismatch in Hres.
    - by apply resolveLineHash_no_mismatch in Hres.
    - destruct (s <? 1) eqn:H1; [done |].
      destruct (Z.of_nat (length (lines st)) <? s) eqn:H2; [done |].
      destruct (e <? s) eqn:H3; [done |].
      destruct (Z.of_nat (length (lines st)) <? e) eqn:H4; [done |].
      simpl in Hcheck. unfold verifyRange in Hcheck.
      rewrite covered_range_verifies in Hcheck by (done || lia). done. }
  destruct edit as [tok txt | t1 t2 new | tok new | tok | t1 t2]; cbn [applyEdit].
  - unfold parseOrThrow. destruct (parseLineHash tok) as [ref |]; [| done].
    cbn [mbind result_bind]. intros [? | (n & _ & ?)]%bind_Throw; [| done].
    by eapply Hsingle.
  - destruct (parseLineHash t1) as [r1 |], (parseLineHash t2) as [r2 |]; try done.
    intros [? | ([s e] & _ & ?)]%bind_Throw; [| done]. by eapply Hrange.
  - unfold parseOrThrow. destruct (parseLineHash tok) as [ref |]; [| done].
    cbn [mbind result_bind]. intros [? | (n & _ & ?)]%bind_Throw; [| done].
    by eapply Hsingle.
  - unfold parseOrThrow. destruct (parseLineHash tok) as [ref |]; [| done].
    cbn [mbind result_bind]. intros [? | (n & _ & ?)]%bind_Throw; [| done].
    by eapply Hsingle.
  - destruct (parseLineHash t1) as [r1 |], (parseLineHash t2) as [r2 |]; try done.
    intros [? | ([s e] & _ & ?)]%bind_Throw; [| done]. by eapply Hrange.
Qed.

Lemma applyEdits_no_mismatch (aborted : bool) (edits : list Edit)
    (st : EditState) (i : Z) :
  indexCovers st.(lines) st.(hashIndex) →
  applyEdits aborted edits st ≠ Throw (HashMismatch i).
Proof.
  revert st. induction edits as [|edit edits IH]; intros st Hcovers; [done |].
  cbn [applyEdits]. destruct aborted; [done |].
  intros [Hstep | (st1 & Hstep & Hrest)]%bind_Throw.
  - by eapply applyEdit_no_mismatch.
  - eapply IH; [| exact Hrest]. by eapply applyEdit_covers.
Qed.

(** X11. The hash verification of the range operations never fires in an
    edit call. The index is computed from the buffer the call itself holds
    and every operation keeps the two in step, so whatever the file, the
    edits, the host and the cancellation signal, [edit_hashline] does not
    fail with a hash mismatch. *)
Theorem edit_hashline_never_mismatches `{Host} (signal : Signal) (path : string)
    (edits : list Edit) (responseMode : ResponseMode) (fs : gmap string string)
    (i : Z) :
  (edit_hashline signal path edits responseMode fs).1 ≠ Throw (HashMismatch i).
Proof.
  rewrite edit_hashline_run.
  destruct (abortedAtEntry signal); [done |].
  destruct (fs !! resolvePath path) as [data |]; [| done].
  destruct (MAX_FILE_SIZE <? _); [done |].
  destruct (isLikelyBinary _); [done |].
  destruct (applyEdits _ edits _) as [st | e] eqn:Hrun; [done |].
  simpl. intros [= ->].
  eapply applyEdits_no_mismatch; [| exact Hrun]. apply rebuildIndex_covers.
Qed.

(** ** Range operations that do the same *)

(** X9. Replacing a range by no lines is deleting it. On every state whose
    index covers the buffer, as it does in every state an edit call
    reaches, and for every pair of references, [replace_range] with an
    empty list of new lines and [delete_range] both go through and leave
    the same buffer, the same index and the same (empty) modified set, or
    both fail with the same error, which is not the hash mismatch, the one
    error whose message the two operations do not word alike. *)
Theorem replace_range_by_nothing (st : EditState) (startHash endHash : string) :
  indexCovers st.(lines) st.(hashIndex) →
  match applyEdit (replace_range startHash endHash []) st,
        applyEdit (delete_range startHash endHash) st with
  | Ok replaced, Ok deleted =>
      replaced.(lines) = deleted.(lines)
      ∧ replaced.(hashIndex) = deleted.(hashIndex)
      ∧ replaced.(modifiedLines) = deleted.(modifiedLines)
      ∧ length replaced.(lines) < length st.(lines)
  | Throw e1, Throw e2 => e1 = e2 ∧ ∀ i, e1 ≠ HashMismatch i
  | _, _ => False
  end%nat.
Proof.
  intros Hcovers.
  pose proof (λ i, applyEdit_no_mismatch (delete_range startHash endHash) st i Hcovers)
    as Hverified.
  cbn [applyEdit] in *.
  destruct (parseLineHash startHash) as [startRef |]; [| done].
  destruct (parseLineHash endHash) as [endRef |]; [| done].
  destruct (resolveRange st startRef endRef) as [[s e] | err] eqn:Hrange;
    [| split; [done | intros i ->; by apply (Hverified i)]].
  cbn [mbind result_bind]. apply resolveRange_Ok in Hrange as (Hs & Hse & He & _).
  cbn [lines hashIndex modifiedLines restructured].
  replace (Z.to_nat (s - 1) + Z.to_nat (e - s + 1))%nat with (Z.to_nat e) by lia.
  rewrite app_nil_l. split; [done |]. split; [done |]. split; [done |].
  rewrite length_app, length_take, length_drop. lia.
Qed.

Lemma replace_range_by_nothing_witness :
  match applyEdit (replace_range (tokenOf 1 "a") (tokenOf 2 "b") [])
          (stateOf threeLines ∅),
        applyEdit (delete_range (tokenOf 1 "a") (tokenOf 2 "b"))
          (stateOf threeLines ∅) with
  | Ok replaced, Ok deleted =>
      replaced.(lines) = deleted.(lines)
      ∧ replaced.(hashIndex) = deleted.(hashIndex)
      ∧ replaced.(modifiedLines) = deleted.(modifiedLines)
      ∧ length replaced.(lines) < length (stateOf threeLines ∅).(lines)
  | Throw e1, Throw e2 => e1 = e2 ∧ ∀ i, e1 ≠ HashMismatch i
  | _, _ => False
  end%nat.
Proof.
  pose proof (replace_range_by_nothing (stateOf threeLines ∅) (tokenOf 1 "a")
                (tokenOf 2 "b") (rebuildIndex_covers _ _)) as Hsame.
  exact Hsame.
Defined.

(** ** Calls and the file system *)

(** Text in two scripts is well-formed; a byte [ff], a continuation byte
    on its own and a sequence that is cut off are not. *)
Example validUtf8_examples :
  validUtf8 "naïve ✓" = true
  ∧ validUtf8 (String "a" (String "255" (String newline "b"))) = false
  ∧ validUtf8 (String "128" "a") = false
  ∧ validUtf8 (String "226" (String "130" EmptyString)) = false.
Proof. by vm_compute. Qed.



(** X13. The read tool never writes: whatever the parameters and whether
    the call succeeds or fails, the file system after the call is the one
    before it. *)
Theorem read_hashline_reads_only `{Host} (aborted : bool) (path : string)
    (params : ReadParams) (fs : gmap string string) :
  (read_hashline aborted path params fs).2 = fs.
Proof.
  rewrite read_hashline_run.
  destruct aborted; [done |].
  destruct (fs !! resolvePath path) as [data |]; [| done].
  destruct (MAX_FILE_SIZE <? _); [done |].
  destruct (isLikelyBinary _); [done |].
  cbv zeta. by destruct (readWindow _ params) as [[startLine endLine] |].
Qed.

(** X14. One gate for both tools. When the file is missing, larger than
    50 MiB or has a binary extension, the check made before reading fails,
    and then the read tool and the edit tool both fail with that same
    error, whatever the read parameters and the edits, and neither touches
    the file system. The size is checked before the extension. *)
Theorem validation_gates_both_tools `{Host} (path : string)
    (params : ReadParams) (signal : Signal) (edits : list Edit)
    (responseMode : ResponseMode) (fs : gmap string string) (e : Error) :
  (validateFileForReading (resolvePath path) fs).1 = Throw e →
  signal.(abortedAtEntry) = false →
  read_hashline false path params fs = (Throw e, fs)
  ∧ edit_hashline signal path edits responseMode fs = (Throw e, fs)
  ∧ (e = NoSuchFile (resolvePath path)
     ∨ (∃ data, fs !! resolvePath path = Some data
          ∧ (MAX_FILE_SIZE < Z.of_nat (String.length data)
               ∧ e = FileTooLarge (Z.of_nat (String.length data))
             ∨ Z.of_nat (String.length data) ≤ MAX_FILE_SIZE
               ∧ isLikelyBinary (resolvePath path) = true
               ∧ e = FileAppearsBinary (extname (resolvePath path))))).
Proof.
  intros Hcheck Hentry.
  rewrite read_hashline_run, edit_hashline_run, Hentry.
  revert Hcheck. unfold validateFileForReading, statSize, throw.
  unfold mbind, mret, IO_bind, IO_ret.
  destruct (fs !! resolvePath path) as [data |]; simpl.
  - destruct (MAX_FILE_SIZE <? _) eqn:Hsize; simpl.
    + intros [= <-]. split; [done | split; [done |]].
      right. exists data. split; [done |]. left. split; [lia | done].
    + destruct (isLikelyBinary _) eqn:Hbinary; simpl; [| done].
      intros [= <-]. split; [done | split; [done |]].
      right. exists data. split; [done |]. right. split; [lia | done].
  - intros [= <-]. split; [done | split; [done |]]. by left.
Qed.

Lemma validation_gates_both_tools_witness :
  read_hashline (H := exampleHost) false "absent.txt" windowPastEnd notes
  = (Throw (NoSuchFile "absent.txt"), notes)
  ∧ edit_hashline (H := exampleHost) notAborted "absent.txt"
      [delete_line (tokenOf 1 "a")] minimal notes
    = (Throw (NoSuchFile "absent.txt"), notes).
Proof.
  pose proof (validation_gates_both_tools (H := exampleHost) "absent.txt"
                windowPastEnd notAborted [delete_line (tokenOf 1 "a")] minimal
                notes (NoSuchFile "absent.txt") ltac:(evaluate) eq_refl)
    as (Hread & Hedit & _).
  split; [exact Hread | exact Hedit].
Defined.

(** ** What the read tool shows *)

Lemma slice_lookup {A} (l : list A) (first last : Z) (i : nat) (x : A) :
  0 ≤ first →
  slice l first last !! i = Some x →
  l !! (Z.to_nat first + i)%nat = Some x.
Proof.
  intros Hfirst. unfold slice.
  replace (first <? 0) with false by lia.
  intros [Hx _]%lookup_take_Some. rewrite lookup_drop in Hx.
  apply lookup_lt_Some in Hx as Hlt.
  by replace (Z.to_nat first) with (Z.to_nat (first `min` Z.of_nat (length l))) by lia.
Qed.

Lemma readWindow_start (total : Z) (params : ReadParams) (startLine endLine : Q) :
  readWindow total params = Ok (startLine, endLine) → (0 <= startLine)%Q.
Proof.
  unfold readWindow. destruct (aroundLine params) as [a |].
  - intros [= <- _]. destruct (mathMax_cases 0 (a - 1 - default 10%Q (radius params)))
      as [[? ->] | [? ->]]; lra.
  - destruct (Qle_bool _ _); [done |]. intros [= <- _].
    destruct (offset params) as [o |]; [| lra].
    destruct (Qeq_bool o 0); [lra |].
    destruct (mathMax_cases 0 (o - 1)) as [[? ->] | [? ->]]; lra.
Qed.

Lemma inject_Z_sub (a b : Z) : inject_Z (a - b) == inject_Z a - inject_Z b.
Proof. unfold Z.sub. rewrite inject_Z_plus, inject_Z_opp. reflexivity. Qed.

(** With whole parameters the window starts at a whole number. *)
Lemma readWindow_whole (total : Z) (o l a r : option Z) (startLine endLine : Q) :
  readWindow total (wholeParams o l a r) = Ok (startLine, endLine) →
  ∃ first : Z, 0 ≤ first ∧ startLine == inject_Z first.
Proof.
  unfold readWindow, wholeParams. cbn [aroundLine offset limit radius].
  destruct a as [a |]; cbn [fmap option_fmap option_map].
  - intros [= <- _].
    assert (∃ z : Z, default 10%Q (inject_Z <$> r) = inject_Z z) as [z ->]
      by (destruct r as [r |]; [by exists r | by exists 10]).
    destruct (mathMax_cases 0 (inject_Z a - 1 - inject_Z z)) as [[Hle ->] | [_ ->]].
    + exists (a - 1 - z). split; [| by rewrite !inject_Z_sub].
      rewrite Zle_Qle, !inject_Z_sub. exact Hle.
    + by exists 0.
  - destruct (Qle_bool _ _); [done |]. intros [= <- _].
    destruct o as [o |]; cbn [fmap option_fmap option_map]; [| by exists 0].
    destruct (Qeq_bool (inject_Z o) 0); [by exists 0 |].
    destruct (mathMax_cases 0 (inject_Z o - 1)) as [[Hle ->] | [_ ->]].
    + exists (o - 1). split; [| by rewrite inject_Z_sub].
      rewrite Zle_Qle, inject_Z_sub. exact Hle.
    + by exists 0.
Qed.

(** X15. With whole parameters, every line the read tool prints is a line
    of the file under its true number. Whatever the window asked for
    (offset and limit, centre and radius, past the end or negative), as
    long as the numbers given are whole and at most 2^53 in absolute value,
    the line printed at position [i] of the selection is
    [<n>:<fingerprint>|<text>] where [n] is the start of the window plus
    [i] plus one and [text] is line [n] of the file. (A window that does
    not start at a whole number prints numbers that are no line
    numbers.) *)
Theorem read_lines_are_file_lines `{Host} (allLines : list string)
    (o l a r : option Z) (startLine endLine : Q) (i : nat) (out : string) :
  forallb withinExact [o; l; a; r] = true →
  readWindow (Z.of_nat (length allLines)) (wholeParams o l a r)
  = Ok (startLine, endLine) →
  hashlineLines startLine
    (slice allLines (toIntegerOrInfinity startLine) (toIntegerOrInfinity endLine))
    !! i = Some out →
  let n := toIntegerOrInfinity startLine + Z.of_nat i + 1 in
  ∃ line, allLines !! Z.to_nat (n - 1) = Some line
    ∧ out = (pretty n +:+ ":" +:+ generateLineHash line n) +:+ "|" +:+ line.
Proof.
  intros _ Hwindow Hout n.
  apply readWindow_whole in Hwindow as (first & Hfirst & Hstart).
  pose proof (toIntegerOrInfinity_whole _ _ Hstart) as Hinteger.
  unfold hashlineLines in Hout. rewrite list_lookup_imap in Hout.
  destruct (slice allLines _ _ !! i) as [line |] eqn:Hline; [| done].
  simpl in Hout. injection Hout as <-.
  exists line. split.
  - apply slice_lookup in Hline; [| lia].
    by replace (Z.to_nat (n - 1))
      with (Z.to_nat (toIntegerOrInfinity startLine) + i)%nat by (subst n; lia).
  - rewrite (numberToString_whole _ n); [by rewrite !append_assoc |].
    subst n. rewrite Hinteger, Hstart, !inject_Z_plus. reflexivity.
Qed.

Lemma read_lines_are_file_lines_witness :
  ∃ line, threeLines !! Z.to_nat (toIntegerOrInfinity 1 + Z.of_nat 1 + 1 - 1) = Some line
    ∧ fileOf ["3:4a8a08|c"]
      = (pretty (toIntegerOrInfinity 1 + Z.of_nat 1 + 1) +:+ ":"
           +:+ generateLineHash line (toIntegerOrInfinity 1 + Z.of_nat 1 + 1))
        +:+ "|" +:+ line.
Proof.
  exact (read_lines_are_file_lines (H := exampleHost) threeLines
           (Some 2) (Some 5) None None 1%Q 3%Q 1 (fileOf ["3:4a8a08|c"])
           ltac:(evaluate) ltac:(evaluate) ltac:(evaluate)).
Defined.

Lemma slice_within {A} (l : list A) (first last : Z) :
  0 ≤ first → first ≤ last → last ≤ Z.of_nat (length l) →
  slice l first last
  = take (Z.to_nat (last - first)) (drop (Z.to_nat first) l).
Proof.
  intros H1 H2 H3. unfold slice.
  replace (first <? 0) with false by lia. replace (last <? 0) with false by lia.
  by rewrite !Z.min_l by lia.
Qed.

(** The window of a read with a whole offset inside the file and a whole
    limit. *)
Lemma readWindow_page (total o l : Z) :
  1 ≤ o → o - 1 < total →
  ∃ startLine endLine : Q,
    readWindow total (wholeParams (Some o) (Some l) None None)
    = Ok (startLine, endLine)
    ∧ startLine == inject_Z (o - 1)
    ∧ endLine == inject_Z (Z.min (o - 1 + l) total).
Proof.
  intros Ho Hin. unfold readWindow, wholeParams.
  cbn [aroundLine offset limit default fmap option_fmap option_map].
  assert (1 <= inject_Z o)%Q as Hone
    by (change 1%Q with (inject_Z 1); rewrite <- Zle_Qle; lia).
  assert (inject_Z o - 1 < inject_Z total)%Q as Hless.
  { change 1%Q with (inject_Z 1). rewrite <- inject_Z_sub, <- Zlt_Qlt. lia. }
  destruct (Qeq_bool (inject_Z o) 0) eqn:Hzero;
    [apply Qeq_bool_iff in Hzero; exfalso; lra |].
  destruct (mathMax_cases 0 (inject_Z o - 1)) as [[_ ->] | [? _]]; [| exfalso; lra].
  rewrite (proj2 (Qle_bool_false _ _) Hless).
  assert (inject_Z o - 1 == inject_Z (o - 1)) as Hstart
    by (rewrite inject_Z_sub; reflexivity).
  eexists _, _. split; [reflexivity |]. split; [done |].
  assert (inject_Z o - 1 + inject_Z l == inject_Z (o - 1 + l)) as Hsum
    by (rewrite inject_Z_plus, inject_Z_sub; reflexivity).
  destruct (mathMin_cases (inject_Z o - 1 + inject_Z l) (inject_Z total))
    as [[Hle ->] | [Hlt ->]].
  - rewrite Hsum in Hle. rewrite <- Zle_Qle in Hle. by rewrite Z.min_l, Hsum by lia.
  - rewrite Hsum in Hlt. rewrite <- Zlt_Qlt in Hlt. by rewrite Z.min_r by lia.
Qed.

(** X16. Reading a file page by page covers it without a gap or a repeat.
    A read with a whole offset and a whole limit that stops before the end
    of the file selects the lines from the offset on, as many as the limit
    says, and when nothing was truncated it ends its text with the number
    of lines left and the offset to go on with; a second read from that
    offset starts on the line after the last one shown, and the two
    selections together are the selection of one read with the two limits
    added (a number of at most 2^53). *)
Theorem read_pages_tile `{Host} (allLines : list string) (o l l' : Z)
    (truncation : TruncationResult) :
  let total := Z.of_nat (length allLines) in
  let page (o l : Z) := wholeParams (Some o) (Some l) None None in
  let selection (window : Q * Q) :=
    slice allLines (toIntegerOrInfinity window.1) (toIntegerOrInfinity window.2) in
  1 ≤ o → 0 ≤ l → 0 ≤ l' → l + l' ≤ MAX_EXACT → o - 1 + l < total →
  truncation.(truncated) = false →
  ∃ first second both : Q * Q,
    readWindow total (page o l) = Ok first
    ∧ readWindow total (page (o + l) l') = Ok second
    ∧ readWindow total (page o (l + l')) = Ok both
    ∧ selection first = take (Z.to_nat l) (drop (Z.to_nat (o - 1)) allLines)
    ∧ outputTextOf (page o l) total first.1 first.2 truncation
      = truncation.(content) +:+ blankLine
          +:+ "[" +:+ pretty (total - (o - 1 + l))
          +:+ " more lines in file. Use offset=" +:+ pretty (o + l)
          +:+ " to continue.]"
    ∧ toIntegerOrInfinity second.1 = toIntegerOrInfinity first.2
    ∧ selection first ++ selection second = selection both.
Proof.
  intros total page selection Ho Hl Hl' _ Hmore Htruncated.
  destruct (readWindow_page total o l) as (s1 & e1 & Hfirst & Hs1 & He1); [lia | lia |].
  destruct (readWindow_page total (o + l) l') as (s2 & e2 & Hsecond & Hs2 & He2);
    [lia | lia |].
  destruct (readWindow_page total o (l + l')) as (s & e & Hboth & Hs & He);
    [lia | lia |].
  rewrite Z.min_l in He1 by lia.
  exists (s1, e1), (s2, e2), (s, e). subst selection. cbn [fst snd].
  rewrite (toIntegerOrInfinity_whole _ _ Hs1), (toIntegerOrInfinity_whole _ _ He1),
    (toIntegerOrInfinity_whole _ _ Hs2), (toIntegerOrInfinity_whole _ _ He2),
    (toIntegerOrInfinity_whole _ _ Hs), (toIntegerOrInfinity_whole _ _ He).
  split; [done |]. split; [done |]. split; [done |].
  split; [| split; [| split]].
  - rewrite slice_within by lia. do 2 f_equal. lia.
  - unfold outputTextOf, page, wholeParams. rewrite Htruncated.
    cbn [aroundLine limit fmap option_fmap option_map].
    assert (e1 < inject_Z total)%Q as Hbefore by (rewrite He1, <- Zlt_Qlt; lia).
    rewrite (proj2 (Qle_bool_false _ _) Hbefore). cbn [negb].
    rewrite (numberToString_whole (inject_Z total - e1) (total - (o - 1 + l)))
      by (rewrite He1, inject_Z_sub; reflexivity).
    rewrite (numberToString_whole (e1 + 1) (o + l)); [done |].
    rewrite He1. change 1%Q with (inject_Z 1). rewrite <- inject_Z_plus.
    by replace (o - 1 + l + 1) with (o + l) by lia.
  - f_equal. lia.
  - replace (o + l - 1) with (o - 1 + l) by lia.
    replace (o + l - 1 + l') with (o - 1 + (l + l')) by lia.
    rewrite !slice_within by lia.
    replace (Z.to_nat (o - 1 + l)) with (Z.to_nat (o - 1) + Z.to_nat l)%nat by lia.
    rewrite <- drop_drop.
    replace (Z.to_nat (o - 1 + l - (o - 1))) with (Z.to_nat l) by lia.
    rewrite take_take_drop. f_equal. lia.
Qed.

Lemma read_pages_tile_witness :
  ∃ first second both : Q * Q,
    readWindow 9 (wholeParams (Some 3) (Some 2) None None) = Ok first
    ∧ readWindow 9 (wholeParams (Some 5) (Some 4) None None) = Ok second
    ∧ slice nineLines (toIntegerOrInfinity first.1) (toIntegerOrInfinity first.2)
      = ["l3"; "l4"]
    ∧ slice nineLines (toIntegerOrInfinity first.1) (toIntegerOrInfinity first.2)
        ++ slice nineLines (toIntegerOrInfinity second.1)
             (toIntegerOrInfinity second.2)
      = slice nineLines (toIntegerOrInfinity both.1) (toIntegerOrInfinity both.2).
Proof.
  pose proof (read_pages_tile (H := exampleHost) nineLines 3 2 4 (passThrough ""))
    as Htile.
  cbv zeta in Htile.
  destruct (Htile ltac:(evaluate) ltac:(evaluate) ltac:(evaluate) ltac:(evaluate)
              ltac:(evaluate) eq_refl)
    as (first & second & both & Hfirst & Hsecond & _ & Hshown & _ & _ & Htiles).
  exists first, second, both.
  split; [exact Hfirst |]. split; [exact Hsecond |].
  split; [exact Hshown | exact Htiles].
Defined.

(** ** What the edit tool reports *)



Lemma applyEdit_affects (edit : Edit) (st st' : EditState) :
  applyEdit edit st = Ok st' →
  is_Some st'.(minAffectedLine) ∧ is_Some st'.(maxAffectedLine).
Proof.
  destruct edit as [tok txt | t1 t2 new | tok new | tok | t1 t2]; cbn [applyEdit].
  - intros (ref & _ & (n & _ & [= <-])%bind_Ok)%bind_Ok. by split.
  - destruct (parseLineHash t1), (parseLineHash t2); try done.
    intros ([s e] & _ & [= <-])%bind_Ok. by split.
  - intros (ref & _ & (n & _ & [= <-])%bind_Ok)%bind_Ok. by split.
  - intros (ref & _ & (n & _ & [= <-])%bind_Ok)%bind_Ok. by split.
  - destruct (parseLineHash t1), (parseLineHash t2); try done.
    intros ([s e] & _ & [= <-])%bind_Ok. by split.
Qed.

Lemma applyEdits_affects (aborted : bool) (edits : list Edit) (st st' : EditState) :
  applyEdits aborted edits st = Ok st' →
  (is_Some st.(minAffectedLine) ∧ is_Some st.(maxAffectedLine)) ∨ edits ≠ [] →
  is_Some st'.(minAffectedLine) ∧ is_Some st'.(maxAffectedLine).
Proof.
  revert st. induction edits as [|edit edits IH]; intros st; cbn [applyEdits].
  - intros [= <-] [? | ?]; done.
  - destruct aborted; [done |].
    intros (st1 & Hstep & Hrest)%bind_Ok _.
    apply (IH st1 Hrest). left. by eapply applyEdit_affects.
Qed.

(** X18. A successful edit call reports an affected region exactly when it
    was given at least one edit. *)
Theorem affected_region_reported `{Host} (signal : Signal) (path : string)
    (edits : list Edit) (responseMode : ResponseMode) (fs : gmap string string)
    (details : EditDetails) :
  (edit_hashline signal path edits responseMode fs).1 = Ok details →
  details.(editsApplied) = length edits
  ∧ (details.(affectedRegion) = None ↔ edits = []).
Proof.
  rewrite edit_hashline_run.
  destruct (abortedAtEntry signal); [done |].
  destruct (fs !! resolvePath path) as [data |]; [| done].
  destruct (MAX_FILE_SIZE <? _); [done |].
  destruct (isLikelyBinary _); [done |].
  destruct (applyEdits _ edits _) as [st | e] eqn:Hrun; [| done].
  simpl. intros [= <-]. split; [done |]. simpl. split.
  - intros Hnone. destruct edits as [|edit edits]; [done |]. exfalso.
    destruct (applyEdits_affects _ _ _ _ Hrun) as [[lo Hlo] [hi Hhi]];
      [by right |].
    unfold affectedRegionOf in Hnone. by rewrite Hlo, Hhi in Hnone.
  - intros ->. by injection Hrun as <-.
Qed.

Lemma affected_region_reported_witness :
  editsApplied
    {| editsApplied := 1;
       affectedRegion := Some [" 1|a"; "*2:9d5ed6|B"; " 3|c"] |}
  = length [replace_line (tokenOf 2 "b") "B"]
  ∧ (affectedRegion
       {| editsApplied := 1;
          affectedRegion := Some [" 1|a"; "*2:9d5ed6|B"; " 3|c"] |} = None
     ↔ [replace_line (tokenOf 2 "b") "B"] = []).
Proof.
  exact (affected_region_reported (H := exampleHost) notAborted "notes.txt"
           [replace_line (tokenOf 2 "b") "B"] normal notes
           {| editsApplied := 1;
              affectedRegion := Some [" 1|a"; "*2:9d5ed6|B"; " 3|c"] |}
           ltac:(evaluate)).
Defined.

(** ** Versions *)

Lemma versionParts_length (v : string) (parts : list Z) :
  versionParts v = Some parts → length parts = 3%nat.
Proof.
  unfold versionParts. repeat case_match; try done. by intros [= <-].
Qed.

Lemma newerParts_irreflexive (a : list Z) : newerParts a a = false.
Proof. induction a as [|x a IH]; [done |]. simpl. by rewrite Z.ltb_irrefl. Qed.

Lemma newerParts_asymmetric (a b : list Z) :
  newerParts a b = true → newerParts b a = false.
Proof.
  revert b. induction a as [|x a IH]; intros [|y b]; simpl; try done.
  destruct (x <? y) eqn:Hxy, (y <? x) eqn:Hyx; try done; try lia.
  apply IH.
Qed.

Lemma newerParts_transitive (a b c : list Z) :
  newerParts a b = true → newerParts b c = true → newerParts a c = true.
Proof.
  revert b c. induction a as [|x a IH]; intros [|y b] [|z c]; simpl; try done.
  destruct (x <? y) eqn:Hxy, (y <? x) eqn:Hyx, (y <? z) eqn:Hyz,
    (z <? y) eqn:Hzy, (x <? z) eqn:Hxz, (z <? x) eqn:Hzx;
    try done; try lia.
  apply IH.
Qed.

Lemma newerParts_total (a b : list Z) :
  length a = length b → a ≠ b → newerParts a b = true ∨ newerParts b a = true.
Proof.
  revert b. induction a as [|x a IH]; intros [|y b]; simpl; try done.
  intros [= Hlen] Hne.
  destruct (x <? y) eqn:Hxy; [by left |].
  destruct (y <? x) eqn:Hyx; [by right |].
  assert (x = y) as -> by lia. apply IH; [done | congruence].
Qed.

Lemma isNewer_parts (current latest : string) (c l : list Z) :
  versionParts current = Some c → versionParts latest = Some l →
  isNewer current latest = newerParts c l.
Proof.
  intros Hc Hl. unfold isNewer, parseVersion. rewrite Hc, Hl.
  rewrite bool_decide_eq_false_2; [done |].
  intros ->. by vm_compute in Hc.
Qed.

Lemma readsExactly_parts (v : string) :
  readsExactly v = true → is_Some (versionParts v).
Proof. unfold readsExactly. destruct (versionParts v); [eauto | done]. Qed.

(** X19. On versions that start with three numbers of at most 2^53 each,
    up to which the numbers the source compares are the values of the
    digits, [isNewer] is a strict order on the triples of numbers: no
    version is newer than itself, two versions are never each newer than
    the other, newer than newer is newer, and of two versions with
    different triples one is newer than the other. *)
Theorem isNewer_strict_order (a b c : string) :
  readsExactly a = true → readsExactly b = true → readsExactly c = true →
  isNewer a a = false
  ∧ (isNewer a b = true → isNewer b a = false)
  ∧ (isNewer a b = true → isNewer b c = true → isNewer a c = true)
  ∧ (versionParts a ≠ versionParts b → isNewer a b = true ∨ isNewer b a = true).
Proof.
  intros [pa Ha]%readsExactly_parts [pb Hb]%readsExactly_parts
    [pc Hc]%readsExactly_parts.
  rewrite (isNewer_parts a a pa pa), (isNewer_parts a b pa pb),
    (isNewer_parts b a pb pa), (isNewer_parts b c pb pc),
    (isNewer_parts a c pa pc) by done.
  split; [apply newerParts_irreflexive |].
  split; [apply newerParts_asymmetric |].
  split; [apply newerParts_transitive |].
  intros Hne. apply newerParts_total; [| congruence].
  by rewrite (versionParts_length a pa), (versionParts_length b pb).
Qed.

Lemma isNewer_strict_order_witness :
  isNewer "0.9.12" "0.9.12" = false
  ∧ (isNewer "0.9.12" "0.10.2" = true → isNewer "0.10.2" "0.9.12" = false)
  ∧ (isNewer "0.9.12" "0.10.2" = true → isNewer "0.10.2" "1.0.0" = true →
     isNewer "0.9.12" "1.0.0" = true)
  ∧ (versionParts "0.9.12" ≠ versionParts "0.10.2" →
     isNewer "0.9.12" "0.10.2" = true ∨ isNewer "0.10.2" "0.9.12" = true).
Proof.
  exact (isNewer_strict_order "0.9.12" "0.10.2" "1.0.0"
           ltac:(evaluate) ltac:(evaluate) ltac:(evaluate)).
Defined.

(** X20. What [isNewer] answers when a version cannot be read. A current
    version that does not start with three numbers (the placeholder
    [unknown] among them) always asks for an update, even when the latest
    version cannot be read either; with a readable current version, an
    unreadable latest version never does. *)
Theorem isNewer_unreadable (current latest : string) :
  (versionParts current = None → isNewer current latest = true)
  ∧ (is_Some (versionParts current) → versionParts latest = None →
     isNewer current latest = false)
  ∧ versionParts "unknown" = None.
Proof.
  split; [| split; [| done]].
  - intros Hc. unfold isNewer. rewrite Hc.
    rewrite (bool_decide_eq_false_2 (is_Some None)) by (by intros [? ?]).
    by rewrite orb_true_r.
  - intros [pc Hc] Hl. unfold isNewer. rewrite Hc, Hl.
    rewrite (bool_decide_eq_false_2 (current = "unknown"))
      by (intros ->; by vm_compute in Hc).
    rewrite (bool_decide_eq_true_2 (is_Some (Some pc))) by eauto.
    by rewrite (bool_decide_eq_false_2 (is_Some None)) by (by intros [? ?]).
Qed.

Lemma isNewer_unreadable_witness :
  isNewer "v1.2" "latest" = true ∧ isNewer "1.2.3" "latest" = false.
Proof.
  split.
  - exact (proj1 (isNewer_unreadable "v1.2" "latest") ltac:(evaluate)).
  - exact (proj1 (proj2 (isNewer_unreadable "1.2.3" "latest"))
             ltac:(vm_compute; eauto) ltac:(evaluate)).
Defined.

Lemma spanDigits_append (s t : string) :
  (spanDigits t).1 = [] →
  spanDigits (s +:+ t) = ((spanDigits s).1, (spanDigits s).2 +:+ t).
Proof.
  intros Ht. induction s as [|c s IH].
  - change (EmptyString +:+ t) with t. simpl.
    destruct (spanDigits t) as [ds rest] eqn:Hspan. simpl in Ht. subst ds.
    f_equal. destruct t as [|c t]; simpl in Hspan.
    + by injection Hspan as <-.
    + destruct (isDigit c); [| by injection Hspan as <-].
      by destruct (spanDigits t).
  - change (String c s +:+ t) with (String c (s +:+ t)). cbn [spanDigits].
    rewrite IH. destruct (isDigit c); [| done]. by destruct (spanDigits s).
Qed.

(** X21. Whatever follows the three numbers of a version is ignored, as
    long as it does not go on with a digit: a suffix such as a pre-release
    tag leaves the three numbers as they are, so a version and the same
    version with a suffix are neither newer than the other. *)
Theorem isNewer_ignores_suffix (v suffix : string) :
  is_Some (versionParts v) →
  (spanDigits suffix).1 = [] →
  versionParts (v +:+ suffix) = versionParts v
  ∧ isNewer v (v +:+ suffix) = false
  ∧ isNewer (v +:+ suffix) v = false.
Proof.
  intros [parts Hparts] Hsuffix.
  assert (versionParts (v +:+ suffix) = versionParts v) as Hsame.
  { revert Hparts. unfold versionParts. rewrite spanDigits_append by done.
    destruct (spanDigits v) as [[|d1 ds1] [|c1 rest1]]; try done.
    cbn [fst snd]. change (String c1 rest1 +:+ suffix) with (String c1 (rest1 +:+ suffix)).
    destruct (decide (c1 = "."%char)) as [-> | ?]; [| by repeat case_match].
    rewrite spanDigits_append by done.
    destruct (spanDigits rest1) as [[|d2 ds2] [|c2 rest2]]; try done.
    cbn [fst snd]. change (String c2 rest2 +:+ suffix) with (String c2 (rest2 +:+ suffix)).
    destruct (decide (c2 = "."%char)) as [-> | ?]; [| by repeat case_match].
    rewrite spanDigits_append by done.
    by destruct (spanDigits rest2) as [[|d3 ds3] rest3]. }
  split; [done |].
  rewrite (isNewer_parts v (v +:+ suffix) parts parts),
    (isNewer_parts (v +:+ suffix) v parts parts) by congruence.
  by rewrite newerParts_irreflexive.
Qed.

Lemma isNewer_ignores_suffix_witness :
  versionParts ("1.2.3" +:+ "-beta.4") = versionParts "1.2.3"
  ∧ isNewer "1.2.3" ("1.2.3" +:+ "-beta.4") = false
  ∧ isNewer ("1.2.3" +:+ "-beta.4") "1.2.3" = false.
Proof.
  exact (isNewer_ignores_suffix "1.2.3" "-beta.4"
           ltac:(vm_compute; eauto) ltac:(evaluate)).
Defined.

(** ** Previews *)

(** X22. A preview fits: for a maximal length of at least three,
    [truncate] returns at most that many code units; a string that fits is
    returned as it is, and a longer one is cut to the maximal length less
    three and closed with three full stops. *)
Theorem truncate_fits {A} (dot : A) (str : list A) (maxLen : Z) :
  3 ≤ maxLen →
  Z.of_nat (length (truncate dot str maxLen)) ≤ maxLen
  ∧ (Z.of_nat (length str) ≤ maxLen → truncate dot str maxLen = str)
  ∧ (maxLen < Z.of_nat (length str) →
     truncate dot str maxLen = take (Z.to_nat (maxLen - 3)) str ++ [dot; dot; dot]).
Proof.
  intros Hmax. unfold truncate.
  destruct (Z.of_nat (length str) <=? maxLen) eqn:Hfits.
  - split; [lia |]. split; [done | lia].
  - assert (slice str 0 (maxLen - 3) = take (Z.to_nat (maxLen - 3)) str) as ->.
    { rewrite slice_within by lia. rewrite drop_0. f_equal. lia. }
    split; [| split; [lia | done]].
    rewrite length_app, length_take. simpl. lia.
Qed.

Lemma truncate_fits_witness :
  Z.of_nat (length (truncate "."%char (list_ascii_of_string "a long first line") 10)) ≤ 10
  ∧ (Z.of_nat (length (list_ascii_of_string "a long first line")) ≤ 10 →
     truncate "."%char (list_ascii_of_string "a long first line") 10
     = list_ascii_of_string "a long first line")
  ∧ (10 < Z.of_nat (length (list_ascii_of_string "a long first line")) →
     truncate "."%char (list_ascii_of_string "a long first line") 10
     = take (Z.to_nat (10 - 3)) (list_ascii_of_string "a long first line")
       ++ ["."; "."; "."]%char).
Proof.
  exact (truncate_fits "."%char (list_ascii_of_string "a long first line") 10
           ltac:(evaluate)).
Defined.

Example isNewer_examples :
  isNewer "1.2.3" "1.2.10" = true
  ∧ isNewer "1.10.0" "1.9.9" = false
  ∧ isNewer "unknown" "1.0.0" = true
  ∧ isNewer "1.02.3" "1.2.3" = false.
Proof. by vm_compute. Qed.

(** ** References that follow the text *)

Lemma matchesIn_none (hashIndex : gmap Z string) (hash : string) (first last : Z) :
  (∀ i, first ≤ i ≤ last → hashIndex !! i ≠ Some hash) →
  matchesIn hashIndex hash first last = [].
Proof.
  intros Hnone. destruct (matchesIn _ _ _ _) as [|x l] eqn:Hm; [done |].
  assert (x ∈ matchesIn hashIndex hash first last) as Hx by (rewrite Hm; by left).
  apply elem_of_matchesIn in Hx as [Hx Hhit]. by destruct (Hnone x).
Qed.

(** X23. A reference follows its text. In a buffer whose lines have
    pairwise distinct fingerprints, with an index that covers it, a
    reference that carries the fingerprint of a line of the buffer and any
    line number of the buffer outside the modified set resolves to the line
    that now holds that text, however far the stated number is from it. *)
Theorem reference_follows_text (lines : list string) (hashIndex : gmap Z string)
    (modifiedLines : gset Z) (n : Z) (c : nat) (line : string) :
  indexCovers lines hashIndex →
  NoDup (fingerprint <$> lines) →
  lines !! c = Some line →
  1 ≤ n ≤ Z.of_nat (length lines) →
  n ∉ modifiedLines →
  resolveLineHash (mkRef n (fingerprint line)) lines hashIndex modifiedLines
  = Ok (Z.of_nat c + 1).
Proof.
  intros Hcovers Hnd Hline Hn Hmod.
  assert (∀ i, 1 ≤ i ≤ Z.of_nat (length lines) →
               hashIndex !! i = Some (fingerprint line) → i = Z.of_nat c + 1) as Honly.
  { intros i Hi Hhit.
    destruct (lookup_lt_is_Some_2 lines (Z.to_nat (i - 1))) as [x Hx]; [lia |].
    pose proof (Hcovers _ _ Hx) as Hcov.
    replace (Z.of_nat (Z.to_nat (i - 1)) + 1) with i in Hcov by lia.
    rewrite Hcov in Hhit. injection Hhit as Heq.
    pose proof (distinct_fingerprints lines _ c x line Hnd Hx Hline Heq). lia. }
  pose proof (Hcovers _ _ Hline) as Hhere.
  apply lookup_lt_Some in Hline as Hc.
  unfold resolveLineHash. cbn [lineNumber hash].
  case_decide as Hexact; [f_equal; apply Honly; [lia | done] |].
  rewrite decide_False by done. rewrite !candidatesBetween_matchesIn.
  unfold nearbyRange.
  destruct (decide (Z.max 1 (n - 10) ≤ Z.of_nat c + 1
                    ≤ Z.min (Z.of_nat (length lines)) (n + 10))) as [Hnear | Hfar].
  - rewrite (matchesIn_unique _ _ _ _ (Z.of_nat c + 1)); try done.
    intros i Hi. apply Honly. lia.
  - rewrite matchesIn_none.
    + rewrite (matchesIn_unique _ _ _ _ (Z.of_nat c + 1)); try done. lia.
    + intros i Hi Hhit. apply Honly in Hhit; lia.
Qed.

Lemma reference_follows_text_witness :
  resolveLineHash (mkRef 1 (fingerprint "l9")) nineLines
    (rebuildIndex nineLines ∅) ∅ = Ok (Z.of_nat 8 + 1).
Proof.
  pose proof (reference_follows_text nineLines (rebuildIndex nineLines ∅) ∅
                1 8 "l9" (rebuildIndex_covers _ _)) as Hfollows.
  exact (Hfollows ltac:(decide_by_evaluation) ltac:(evaluate) ltac:(split; evaluate)
           ltac:(apply not_elem_of_empty)).
Defined.

Lemma edit_hashline_never_mismatches_witness :
  (edit_hashline (H := exampleHost) notAborted "notes.txt"
     [replace_line (tokenOf 2 "b") "B";
      replace_range (tokenOf 1 "a") (tokenOf 3 "c") ["x"]] minimal notes).1
  ≠ Throw (HashMismatch 2).
Proof.
  exact (edit_hashline_never_mismatches (H := exampleHost) notAborted "notes.txt"
           [replace_line (tokenOf 2 "b") "B";
            replace_range (tokenOf 1 "a") (tokenOf 3 "c") ["x"]] minimal notes 2).
Defined.
